(** * Handy: settings schema, settings components and the transcription core

    A shallow embedding of the parts of the Handy repository that the
    specification speaks about.

    - [Schema]: the zod schemas of the settings types file
      ([SettingsSchema], [ModelUnloadTimeoutSchema], ...), as data, with
      the validation they stand for.
    - [SettingsView]: the keydown handler of [Settings.tsx].
    - [Gladia]: the save / remove handlers of [GladiaApiSettings.tsx].
    - [Resampler], [Recording], [Models], [Transcription]: the Rust
      managers.  Their code is not part of the TypeScript sources, so these
      modules are modelled from the specification and say so.
    - [SettingsPage]: what [Settings.tsx] renders.
    - [GladiaPanel], [GladiaAsync]: [loadApiKeyStatus], the Cancel button
      and the JSX of [GladiaApiSettings.tsx]; first handler by handler,
      then with the handlers suspended at their awaits and the user free
      to click in between.
    - [OutputDevice]: the output device selector.
    - [SettingsObject]: settings objects against [SettingsSchema]. *)

From Stdlib Require Import QArith Qabs.
From Stdlib Require Import ZArith Lia List Bool Ascii String.
From stdpp Require Import base option list strings gmap functions sorting.
Import ListNotations.

Close Scope Q_scope.
Set Warnings "-register-all".
Local Open Scope string_scope.
Local Open Scope list_scope.

(* ===================================================================== *)
(** * JavaScript values                                                    *)
(* ===================================================================== *)

(** The JSON-like values a settings object is made of.  Numbers are kept
    as rationals: the schema only mentions the literals [1.0], [0.18] and
    [5]. *)
Inductive JsValue : Type :=
| JUndefined
| JNull
| JBool (b : bool)
| JNum (q : Q)
| JStr (s : string)
| JArr (items : list JsValue)
| JObj (props : list (string * JsValue)).

(** Property read [o.k]: [undefined] when the property is absent. *)
Fixpoint js_get (k : string) (props : list (string * JsValue)) : JsValue :=
  match props with
  | [] => JUndefined
  | (k', v) :: rest => if String.eqb k k' then v else js_get k rest
  end.

(** [name.includes(part)]. *)
Definition includes (part name : string) : bool :=
  match String.index 0 part name with
  | Some _ => true
  | None => false
  end.

(* ===================================================================== *)
(** * The zod schemas                                                      *)
(* ===================================================================== *)

Module Schema.

(** The zod combinators the types file uses. *)
Inductive ZType : Type :=
| ZString
| ZBoolean
| ZNumber
| ZEnum (alternatives : list string)
| ZArray (item : ZType)
| ZRecord (key value : ZType)
| ZObject (shape : list (string * ZType))
| ZNullable (inner : ZType)
| ZOptional (inner : ZType)
| ZDefault (inner : ZType) (dflt : JsValue).

(** [schema.safeParse(v).success].  An object schema checks each declared
    key (a missing key reads as [undefined]) and lets undeclared keys
    through; [nullable] admits [null]; [optional] and [default] admit
    [undefined]. *)
Fixpoint accepts (t : ZType) (v : JsValue) {struct t} : bool :=
  match t with
  | ZString => match v with JStr _ => true | _ => false end
  | ZBoolean => match v with JBool _ => true | _ => false end
  | ZNumber => match v with JNum _ => true | _ => false end
  | ZEnum alternatives =>
      match v with
      | JStr s => existsb (String.eqb s) alternatives
      | _ => false
      end
  | ZArray item =>
      match v with
      | JArr items => forallb (accepts item) items
      | _ => false
      end
  | ZRecord key value =>
      match v with
      | JObj props =>
          forallb (fun kv => accepts key (JStr (fst kv)) && accepts value (snd kv))
                  props
      | _ => false
      end
  | ZObject shape =>
      match v with
      | JObj props =>
          (fix fields (sh : list (string * ZType)) : bool :=
             match sh with
             | [] => true
             | (k, t') :: rest => accepts t' (js_get k props) && fields rest
             end) shape
      | _ => false
      end
  | ZNullable inner =>
      match v with JNull => true | _ => accepts inner v end
  | ZOptional inner =>
      match v with JUndefined => true | _ => accepts inner v end
  | ZDefault inner _ =>
      match v with JUndefined => true | _ => accepts inner v end
  end.

Definition ShortcutBindingSchema : ZType :=
  ZObject
    [ ("id", ZString);
      ("name", ZString);
      ("description", ZString);
      ("default_binding", ZString);
      ("current_binding", ZString) ].

Definition ShortcutBindingsMapSchema : ZType :=
  ZRecord ZString ShortcutBindingSchema.

Definition AudioDeviceSchema : ZType :=
  ZObject [ ("index", ZString); ("name", ZString); ("is_default", ZBoolean) ].

Definition OverlayPositionSchema : ZType := ZEnum ["none"; "top"; "bottom"].

Definition ModelUnloadTimeout_alternatives : list string :=
  [ "never"; "immediately"; "min2"; "min5"; "min10"; "min15"; "hour1"; "sec5" ].

Definition ModelUnloadTimeoutSchema : ZType :=
  ZEnum ModelUnloadTimeout_alternatives.

Definition PasteMethodSchema : ZType := ZEnum ["ctrl_v"; "direct"].

Definition ClipboardHandlingSchema : ZType :=
  ZEnum ["dont_modify"; "copy_to_clipboard"].

(** The shape of [SettingsSchema], key by key, in source order. *)
Definition SettingsSchema_shape : list (string * ZType) :=
  [ ("bindings", ShortcutBindingsMapSchema);
    ("push_to_talk", ZBoolean);
    ("audio_feedback", ZBoolean);
    ("audio_feedback_volume", ZDefault (ZOptional ZNumber) (JNum 1));
    ("sound_theme",
       ZDefault (ZOptional (ZEnum ["marimba"; "pop"; "custom"])) (JStr "marimba"));
    ("start_hidden", ZDefault (ZOptional ZBoolean) (JBool false));
    ("autostart_enabled", ZDefault (ZOptional ZBoolean) (JBool false));
    ("selected_model", ZString);
    ("always_on_microphone", ZBoolean);
    ("selected_microphone", ZOptional (ZNullable ZString));
    ("selected_output_device", ZOptional (ZNullable ZString));
    ("translate_to_english", ZBoolean);
    ("selected_language", ZString);
    ("overlay_position", OverlayPositionSchema);
    ("debug_mode", ZBoolean);
    ("custom_words", ZDefault (ZOptional (ZArray ZString)) (JArr []));
    ("model_unload_timeout",
       ZDefault (ZOptional ModelUnloadTimeoutSchema) (JStr "never"));
    ("word_correction_threshold",
       ZDefault (ZOptional ZNumber) (JNum (18 # 100)));
    ("mistral_api_key", ZOptional (ZNullable ZString));
    ("deepgram_api_key", ZOptional (ZNullable ZString));
    ("assemblyai_api_key", ZOptional (ZNullable ZString));
    ("gladia_api_key", ZOptional (ZNullable ZString));
    ("transcription_provider", ZOptional ZString);
    ("history_limit", ZDefault (ZOptional ZNumber) (JNum 5));
    ("paste_method", ZDefault (ZOptional PasteMethodSchema) (JStr "ctrl_v"));
    ("clipboard_handling",
       ZDefault (ZOptional ClipboardHandlingSchema) (JStr "dont_modify"));
    ("mute_while_recording", ZDefault (ZOptional ZBoolean) (JBool false)) ].

Definition SettingsSchema : ZType := ZObject SettingsSchema_shape.

Definition field_names : list string := map fst SettingsSchema_shape.

(** The declared type of a settings key. *)
Fixpoint field_type (k : string) (shape : list (string * ZType)) : option ZType :=
  match shape with
  | [] => None
  | (k', t) :: rest => if String.eqb k k' then Some t else field_type k rest
  end.

(** The alternatives of an enum-typed field, looking through the
    [optional] / [nullable] / [default] wrappers. *)
Fixpoint enum_alternatives (t : ZType) : option (list string) :=
  match t with
  | ZEnum alternatives => Some alternatives
  | ZNullable inner | ZOptional inner | ZDefault inner _ => enum_alternatives inner
  | _ => None
  end.

(** The configuration items the specification lists as the core's input. *)
Inductive ConfigItem : Type :=
| SelectedModelId
| ProviderSelection
| ProviderCredentials
| PushToTalkMode
| ActivationHangoverThresholds
| IdleUnloadTimeout
| CustomWordList
| WordCorrectionThreshold
| TranslateFlag
| SelectedInputDevice
| SelectedOutputDevice.

Definition all_items : list ConfigItem :=
  [ SelectedModelId; ProviderSelection; ProviderCredentials; PushToTalkMode;
    ActivationHangoverThresholds; IdleUnloadTimeout; CustomWordList;
    WordCorrectionThreshold; TranslateFlag; SelectedInputDevice;
    SelectedOutputDevice ].

(** When a settings key carries a configuration item.  The test is by the
    words of the key's name, and generous: for the activation and hangover
    thresholds of the voice-activity gate any key that speaks of
    activation, hangover, the gate, speech, silence, or of a threshold
    other than the word-correction one would do. *)
Definition corresponds (item : ConfigItem) (name : string) : bool :=
  match item with
  | SelectedModelId => includes "selected_model" name
  | ProviderSelection => includes "provider" name
  | ProviderCredentials => includes "api_key" name
  | PushToTalkMode => includes "push_to_talk" name
  | ActivationHangoverThresholds =>
      includes "activation" name || includes "hangover" name
      || includes "vad" name || includes "gate" name
      || includes "speech" name || includes "silence" name
      || (includes "threshold" name && negb (includes "word_correction" name))
  | IdleUnloadTimeout => includes "unload_timeout" name
  | CustomWordList => includes "custom_words" name
  | WordCorrectionThreshold => includes "word_correction_threshold" name
  | TranslateFlag => includes "translate" name
  | SelectedInputDevice => includes "microphone" name && includes "selected" name
  | SelectedOutputDevice => includes "output_device" name
  end.

(** The settings keys that carry an item. *)
Definition fields_of (item : ConfigItem) : list string :=
  filter (fun name => corresponds item name = true) field_names.

Definition has_field (item : ConfigItem) : bool :=
  existsb (corresponds item) field_names.

End Schema.


(* ===================================================================== *)
(** * Settings.tsx: the debug-mode shortcut                                *)
(* ===================================================================== *)

Module SettingsView.

(** The fields of a DOM [KeyboardEvent] the handler reads. *)
Record KeyboardEvent : Type := {
  key : string;
  shiftKey : bool;
  ctrlKey : bool;
  metaKey : bool;
  altKey : bool
}.

(** [String.prototype.toLowerCase] on the Latin letters.  No character
    outside [A-Z] lowers to an ASCII letter [d], so for the comparison
    with ["d"] made here the other case mappings do not matter. *)
Definition lower_ascii (c : ascii) : ascii :=
  let n := nat_of_ascii c in
  if (65 <=? n)%nat && (n <=? 90)%nat then ascii_of_nat (n + 32) else c.

Fixpoint toLowerCase (s : string) : string :=
  match s with
  | EmptyString => EmptyString
  | String c rest => String (lower_ascii c) (toLowerCase rest)
  end.

(** What the component gets from the [useSettings] hook.  The hook lives
    outside the component's file, so it is an interface here:
    [debug_mode s] is [settings?.debug_mode] ([None] while the settings
    are not loaded), [updateSetting k v] is the store after
    [updateSetting(k, v)]. *)
Class UseSettings (Store : Type) : Type := {
  debug_mode : Store -> option bool;
  updateSetting : string -> JsValue -> Store -> Store
}.

(** [settings?.debug_mode ?? false]. *)
Definition currentDebugMode {Store} `{UseSettings Store} (s : Store) : bool :=
  match debug_mode s with
  | Some b => b
  | None => false
  end.

Definition isDebugShortcut (event : KeyboardEvent) : bool :=
  shiftKey event
  && String.eqb (toLowerCase (key event)) "d"
  && (ctrlKey event || metaKey event).

(** [handleKeyDown]: the store after the event, and whether
    [event.preventDefault()] was called.  The effect that installs the
    handler lists [settings?.debug_mode] among its dependencies, so the
    handler that receives an event closes over the store's current
    value. *)
Definition handleKeyDown {Store} `{UseSettings Store}
    (settings : Store) (event : KeyboardEvent) : Store * bool :=
  if isDebugShortcut event then
    (updateSetting "debug_mode" (JBool (negb (currentDebugMode settings))) settings,
     true)
  else (settings, false).

(** A concrete store: the settings object as a map from key to value,
    [updateSetting] writing the key. *)
#[export] Instance map_store : UseSettings (gmap string JsValue) := {
  debug_mode s :=
    match s !! "debug_mode" with
    | Some (JBool b) => Some b
    | _ => None
    end;
  updateSetting k v s := <[k := v]> s
}.

(** A store in which debug mode is on. *)
Definition debug_on : gmap string JsValue := {[ "debug_mode" := JBool true ]}.

(** Ctrl+Shift+D, as the browser reports it with Shift held. *)
Definition ctrl_shift_d : KeyboardEvent :=
  {| key := "D"; shiftKey := true; ctrlKey := true; metaKey := false;
     altKey := false |}.

End SettingsView.

(* ===================================================================== *)
(** * GladiaApiSettings.tsx: saving and removing the API key               *)
(* ===================================================================== *)

Module Gladia.

(** The four [useState] cells of the component. *)
Record State : Type := {
  apiKey : string;
  hasApiKey : bool;
  showApiKey : bool;
  loading : bool
}.

(** What a handler does besides setting state. *)
Inductive Effect : Type :=
| Invoke (command : string) (apiKeyArg : string)
| OnApiKeySet
| ConsoleError (message : string).

Record World : Type := { st : State; trace : list Effect }.

(** A statement either completes or throws. *)
Inductive Outcome (A : Type) : Type :=
| Returned (a : A)
| Thrown.
Arguments Returned {A} a.
Arguments Thrown {A}.

Definition M (A : Type) : Type := World -> Outcome A * World.

Definition ret {A} (a : A) : M A := fun w => (Returned a, w).

Definition bind {A B} (m : M A) (k : A -> M B) : M B :=
  fun w =>
    match m w with
    | (Returned a, w') => k a w'
    | (Thrown, w') => (Thrown, w')
    end.

Notation "m >>> k" := (bind m (fun _ => k))
  (at level 65, right associativity).

(** [try { body } catch (error) { handler } finally { cleanup }]. *)
Definition try_catch_finally (body handler cleanup : M unit) : M unit :=
  fun w =>
    match body w with
    | (Returned tt, w1) => cleanup w1
    | (Thrown, w1) =>
        match handler w1 with
        | (Returned tt, w2) => cleanup w2
        | (Thrown, w2) =>
            match cleanup w2 with
            | (_, w3) => (Thrown, w3)
            end
        end
    end.

Definition modify (f : State -> State) : M unit :=
  fun w => (Returned tt, {| st := f (st w); trace := trace w |}).

Definition emit (e : Effect) : M unit :=
  fun w => (Returned tt, {| st := st w; trace := trace w ++ [e] |}).

Definition setApiKey (v : string) : M unit :=
  modify (fun s => {| apiKey := v; hasApiKey := hasApiKey s;
                      showApiKey := showApiKey s; loading := loading s |}).
Definition setHasApiKey (v : bool) : M unit :=
  modify (fun s => {| apiKey := apiKey s; hasApiKey := v;
                      showApiKey := showApiKey s; loading := loading s |}).
Definition setShowApiKey (v : bool) : M unit :=
  modify (fun s => {| apiKey := apiKey s; hasApiKey := hasApiKey s;
                      showApiKey := v; loading := loading s |}).
Definition setLoading (v : bool) : M unit :=
  modify (fun s => {| apiKey := apiKey s; hasApiKey := hasApiKey s;
                      showApiKey := showApiKey s; loading := v |}).

(** [await invoke(command, { apiKey })]: the call is made, and the
    promise resolves or rejects as the backend decides ([reply]). *)
Definition invoke (reply : Outcome unit) (command arg : string) : M unit :=
  fun w =>
    (reply, {| st := st w; trace := trace w ++ [Invoke command arg] |}).

(** [onApiKeySet?.()]: nothing when the prop is absent; otherwise the
    callback runs and completes or throws. *)
Definition call_optional (onApiKeySet : option (Outcome unit)) : M unit :=
  match onApiKeySet with
  | None => ret tt
  | Some result => fun w =>
      (result, {| st := st w; trace := trace w ++ [OnApiKeySet] |})
  end.

Definition console_error (message : string) : M unit :=
  emit (ConsoleError message).

(** [handleSaveApiKey].  [k] is the [apiKey] of the render the handler
    belongs to. *)
Definition handleSaveApiKey (onApiKeySet : option (Outcome unit))
    (reply : Outcome unit) : M unit :=
  fun w =>
    let k := apiKey (st w) in
    (setLoading true >>>
     try_catch_finally
       (invoke reply "set_gladia_api_key" k >>>
        setHasApiKey (0 <? String.length k)%nat >>>
        (if String.eqb k "" then setShowApiKey false else ret tt) >>>
        call_optional onApiKeySet)
       (console_error "Failed to save API key:")
       (setLoading false)) w.

(** [handleRemoveApiKey]. *)
Definition handleRemoveApiKey (reply : Outcome unit) : M unit :=
  setLoading true >>>
  try_catch_finally
    (invoke reply "set_gladia_api_key" "" >>>
     setApiKey "" >>>
     setHasApiKey false >>>
     setShowApiKey false)
    (console_error "Failed to remove API key:")
    (setLoading false).

(** Running a handler from a component state, with an empty trace. *)
Definition run (h : M unit) (s : State) : World :=
  snd (h {| st := s; trace := [] |}).

(** The backend commands a run issued, in order. *)
Definition invoked (w : World) : list (string * string) :=
  omap (fun e => match e with
                 | Invoke c a => Some (c, a)
                 | _ => None
                 end) (trace w).

End Gladia.

(* ===================================================================== *)
(** * The core's error taxonomy                                            *)
(* ===================================================================== *)

Inductive CoreError : Type :=
| DeviceUnavailable
| DeviceLost
| ModelNotLoaded
| ModelLoadFailed
| DownloadFailed
| DownloadCancelled
| ProviderUnauthenticated
| ProviderRequestFailed
| InferenceFailed
| InvalidAudioInput.

Inductive result (A : Type) : Type :=
| Ok (a : A)
| Err (e : CoreError).
Arguments Ok {A} a.
Arguments Err {A} e.

(* ===================================================================== *)
(** * Resampler                                                            *)
(* ===================================================================== *)

Module Resampler.

Local Open Scope Z_scope.

(** A PCM sample: a finite value, or one of the non-finite floats. *)
Inductive Sample : Type :=
| Finite (q : Q)
| NonFinite.

(** An [AudioFrame] of the data model: interleaved samples, their rate,
    the channel count, the sequence number. *)
Record AudioFrame : Type := {
  samples : list Sample;
  sample_rate : Z;
  channels : nat;
  sequence : nat
}.

(** What the resampler hands on: samples with their rate and channel
    count. *)
Record Resampled : Type := {
  out_samples : list Q;
  out_rate : Z;
  out_channels : nat
}.

Definition TARGET_RATE : Z := 16000.



(** The finite values of a block, or [None] if one is not finite. *)
Fixpoint finite_values (xs : list Sample) : option (list Q) :=
  match xs with
  | [] => Some []
  | Finite q :: rest =>
      match finite_values rest with
      | Some qs => Some (q :: qs)
      | None => None
      end
  | NonFinite :: _ => None
  end.

Definition Qsum (xs : list Q) : Q := fold_right Qplus 0%Q xs.

Definition average (xs : list Q) : Q :=
  (Qsum xs / inject_Z (Z.of_nat (length xs)))%Q.

(** Number of sample instants in an interleaved block. *)
Definition frame_count (n c : nat) : nat := (n / c)%nat.

(** Channel averaging: instant [i] is the mean of the [c] samples
    interleaved at [i * c]. *)
Definition downmix (c : nat) (xs : list Q) : list Q :=
  map (fun i => average (take c (drop (i * c) xs)))
      (seq 0 (frame_count (length xs) c)).

(** Length of the converted signal: the instants of the input that fit
    at the target rate. *)
Definition converted_length (rate : Z) (n : nat) : nat :=
  Z.to_nat (Z.of_nat n * TARGET_RATE / rate).

(** Linear interpolation of a mono signal at [rate] onto the target
    rate: output instant [i] lies at input position
    [i * rate / TARGET_RATE], between two neighbouring input samples. *)
Definition interpolate (rate : Z) (mono : list Q) : list Q :=
  map (fun i =>
         let pos := Z.of_nat i * rate in
         let idx := Z.to_nat (pos / TARGET_RATE) in
         let frac := (inject_Z (pos mod TARGET_RATE) / inject_Z TARGET_RATE)%Q in
         let a := nth idx mono 0%Q in
         let b := nth (S idx) mono a in
         (a + frac * (b - a))%Q)
      (seq 0 (converted_length rate (length mono))).

(** Modelled from the spec: the Rust resampler is missing from the
    sources.  Section 4.1: zero channels or a non-finite sample is an
    explicit error; rate 16000 with one channel is an identity pass;
    otherwise the channels are averaged and the rate converted by linear
    interpolation. *)
Definition resample (f : AudioFrame) : result Resampled :=
  if (channels f =? 0)%nat then Err InvalidAudioInput
  else
    match finite_values (samples f) with
    | None => Err InvalidAudioInput
    | Some xs =>
        if (sample_rate f =? TARGET_RATE) && (channels f =? 1)%nat then
          Ok {| out_samples := xs; out_rate := TARGET_RATE; out_channels := 1 |}
        else
          Ok {| out_samples := interpolate (sample_rate f) (downmix (channels f) xs);
                out_rate := TARGET_RATE;
                out_channels := 1 |}
    end.

(** Two stereo instants at 8000 Hz, for examples. *)
Definition stereo_8k : AudioFrame :=
  {| samples := [Finite 1; Finite 3; Finite 5; Finite 7];
     sample_rate := 8000; channels := 2; sequence := 0 |}.





End Resampler.

(* ===================================================================== *)
(** * AudioRecordingManager                                                *)
(* ===================================================================== *)

Module Recording.

Inductive Mode : Type := PushToTalk | Toggle.

Inductive SessionState : Type := Idle | Armed | Recording | Flushing | Error.

(** The [RecordingSession] of the data model. *)
Record RecordingSession : Type := {
  id : nat;
  mode : Mode;
  state : SessionState;
  started_at : nat;
  buffer : list (list Q)
}.

(** The manager: its session, the segment the gate has open, the
    selected input device, the clock. *)
Record Manager : Type := {
  session : RecordingSession;
  gate_segment : list (list Q);
  device : option string;
  now : nat
}.

(** What [stop] hands to the TranscriptionManager. *)
Record TranscriptionRequest : Type := {
  session_id : nat;
  audio : list Q
}.

Definition with_state (st : SessionState) (m : Manager) : Manager :=
  {| session := {| id := id (session m); mode := mode (session m); state := st;
                   started_at := started_at (session m);
                   buffer := buffer (session m) |};
     gate_segment := gate_segment m; device := device m; now := now m |}.

Definition with_buffer (b : list (list Q)) (m : Manager) : Manager :=
  {| session := {| id := id (session m); mode := mode (session m);
                   state := state (session m);
                   started_at := started_at (session m); buffer := b |};
     gate_segment := gate_segment m; device := device m; now := now m |}.

(** The gate closes its open segment into the session's buffer. *)
Definition close_gate_segment (m : Manager) : Manager :=
  {| session := session (with_buffer (buffer (session m) ++ gate_segment m) m);
     gate_segment := []; device := device m; now := now m |}.

(** Modelled from the spec: the Rust AudioRecordingManager is missing
    from the sources.  Section 4.3, [start(mode)]: DeviceUnavailable
    without a selected input device; otherwise a fresh session goes
    Idle, Armed, Recording.  The section starts sessions from Idle only;
    a session under way is left as it is. *)
Definition start (md : Mode) (m : Manager) : result unit * Manager :=
  match device m with
  | None => (Err DeviceUnavailable, m)
  | Some _ =>
      match state (session m) with
      | Idle =>
          let fresh :=
            {| session := {| id := S (id (session m)); mode := md; state := Armed;
                             started_at := now m; buffer := [] |};
               gate_segment := []; device := device m; now := now m |} in
          (Ok tt, with_state Recording fresh)
      | _ => (Ok tt, m)
      end
  end.

(** Modelled from the spec: the Rust AudioRecordingManager is missing
    from the sources.  Section 4.3, [stop()]: from Recording or Armed the
    session goes to Flushing, the gate's open segment is closed, the
    buffer is handed over as a request and the session is Idle again
    with its buffer released; from Idle nothing happens.  The section
    names no other source state; there the call does nothing either. *)
Definition stop (m : Manager) : Manager * option TranscriptionRequest :=
  match state (session m) with
  | Recording | Armed =>
      let flushing := with_state Flushing m in
      let closed := close_gate_segment flushing in
      let request := {| session_id := id (session closed);
                        audio := concat (buffer (session closed)) |} in
      (with_state Idle (with_buffer [] closed), Some request)
  | Idle => (m, None)
  | Flushing | Error => (m, None)
  end.

(** Modelled from the spec: the Rust AudioRecordingManager is missing
    from the sources.  Section 4.3, [cancel()]: buffer and gate state are
    discarded, no request is produced, the session is Idle. *)
Definition cancel (m : Manager) : Manager :=
  {| session := session (with_state Idle (with_buffer [] m));
     gate_segment := []; device := device m; now := now m |}.

(** A manager at rest, with a microphone selected. *)
Definition at_rest : Manager :=
  {| session := {| id := 0; mode := Toggle; state := Idle; started_at := 0;
                   buffer := [] |};
     gate_segment := []; device := Some "default"; now := 0 |}.

End Recording.

(* ===================================================================== *)
(** * ModelStore and ModelManager                                          *)
(* ===================================================================== *)

Module Models.

(** The status of a [ModelEntry]. *)
Inductive ModelStatus : Type :=
| NotPresent
| Downloading (bytes_done bytes_total : N)
| Verifying
| Present
| Loading
| Loaded
| Unloading
| Failed (reason : string).

Record DownloadTask : Type := {
  model_id : string;
  cancellation : bool;
  progress : N
}.

(** The catalogue's entries by model id, the download tasks by model id
    (so at most one per id), the engine handle the manager owns (the id of
    the model it holds), whether that handle is lent to a request, and
    the swap waiting for that request to complete. *)
Record Manager : Type := {
  entries : gmap string ModelStatus;
  tasks : gmap string DownloadTask;
  engine : option string;
  in_flight : bool;
  queued_swap : option string
}.

Definition status (m : Manager) (id : string) : option ModelStatus :=
  entries m !! id.

Definition set_status (id : string) (s : ModelStatus) (m : Manager) : Manager :=
  {| entries := <[id := s]> (entries m); tasks := tasks m; engine := engine m;
     in_flight := in_flight m; queued_swap := queued_swap m |}.

Definition set_engine (e : option string) (m : Manager) : Manager :=
  {| entries := entries m; tasks := tasks m; engine := e;
     in_flight := in_flight m; queued_swap := queued_swap m |}.

Definition set_in_flight (b : bool) (m : Manager) : Manager :=
  {| entries := entries m; tasks := tasks m; engine := engine m;
     in_flight := b; queued_swap := queued_swap m |}.

Definition set_queued_swap (q : option string) (m : Manager) : Manager :=
  {| entries := entries m; tasks := tasks m; engine := engine m;
     in_flight := in_flight m; queued_swap := q |}.

Definition set_tasks (t : gmap string DownloadTask) (m : Manager) : Manager :=
  {| entries := entries m; tasks := t; engine := engine m;
     in_flight := in_flight m; queued_swap := queued_swap m |}.

(** The loaded model goes Loaded, Unloading, Present and the engine is
    released. *)
Definition unload_current (m : Manager) : Manager :=
  match engine m with
  | Some active =>
      set_engine None (set_status active Present (set_status active Unloading m))
  | None => m
  end.

(** The target goes Present, Loading, Loaded; a load that fails marks it
    Failed and leaves no engine. *)
Definition load (id : string) (load_ok : bool) (m : Manager) : Manager :=
  let loading := set_status id Loading m in
  if load_ok then set_engine (Some id) (set_status id Loaded loading)
  else set_engine None (set_status id (Failed "load failed") loading).

(** Loading a second model first unloads the first. *)
Definition swap (id : string) (load_ok : bool) (m : Manager) : Manager :=
  load id load_ok (unload_current m).

Inductive Selected : Type := Switched | Queued.

(** Modelled from the spec: the Rust ModelManager is missing from the
    sources.  Section 4.5, [select(model_id)]: an entry that is not
    Present is an explicit error and nothing else happens; while the
    loaded model has a request in flight the swap is queued; otherwise
    the loaded model is unloaded and the target loaded ([load_ok] is
    whether the artifact loads). *)
Definition select (id : string) (load_ok : bool) (m : Manager)
  : result Selected * Manager :=
  match status m id with
  | Some Present =>
      if in_flight m then (Ok Queued, set_queued_swap (Some id) m)
      else
        (if load_ok then Ok Switched else Err ModelLoadFailed,
         swap id load_ok m)
  | _ => (Err ModelNotLoaded, m)
  end.

(** Modelled from the spec: the Rust ModelManager is missing from the
    sources.  Section 5: the engine handle is lent to one request at a
    time; without a loaded model there is nothing to lend. *)
Definition begin_request (m : Manager) : result unit * Manager :=
  match engine m with
  | Some _ => if in_flight m then (Ok tt, m) else (Ok tt, set_in_flight true m)
  | None => (Err ModelNotLoaded, m)
  end.

(** Modelled from the spec: the Rust ModelManager is missing from the
    sources.  Section 4.5: when the request completes the handle comes
    back and a queued swap is carried out, as a [select] of its own. *)
Definition complete_request (load_ok : bool) (m : Manager) : Manager :=
  let returned := set_in_flight false m in
  match queued_swap returned with
  | Some id => snd (select id load_ok (set_queued_swap None returned))
  | None => returned
  end.

(** Modelled from the spec: the Rust ModelManager is missing from the
    sources.  Section 4.5, idle-unload timer: on expiry the loaded model
    is unloaded; section 3: never while a request is in flight. *)
Definition idle_expire (m : Manager) : Manager :=
  if in_flight m then m else unload_current m.

(** Modelled from the spec: the Rust ModelStore is missing from the
    sources.  Section 4.4, [download(model_id)]: an attempt in flight is
    reused; otherwise an absent (or failed) entry gets a task and goes
    Downloading. *)
Definition download (id : string) (total : N) (m : Manager) : Manager :=
  match tasks m !! id with
  | Some _ => m
  | None =>
      match status m id with
      | Some NotPresent | Some (Failed _) =>
          set_tasks (<[id := {| model_id := id; cancellation := false;
                                progress := 0%N |}]> (tasks m))
                    (set_status id (Downloading 0 total) m)
      | _ => m
      end
  end.

(** Modelled from the spec: the Rust ModelStore is missing from the
    sources.  Section 4.4: a completed transfer is verified and flipped
    to Present; a transfer that does not verify ends Failed. *)
Definition download_finish (id : string) (verified : bool) (m : Manager) : Manager :=
  match tasks m !! id, status m id with
  | Some _, Some (Downloading _ _) =>
      let verifying := set_status id Verifying m in
      set_tasks (delete id (tasks m))
        (set_status id (if verified then Present else Failed "verification failed")
                    verifying)
  | _, _ => m
  end.

(** Modelled from the spec: the Rust ModelStore is missing from the
    sources.  Section 4.4, cancellation: the transfer stops, the
    temporary file goes, the status is NotPresent again. *)
Definition cancel_download (id : string) (m : Manager) : Manager :=
  match tasks m !! id, status m id with
  | Some _, Some (Downloading _ _) =>
      set_tasks (delete id (tasks m)) (set_status id NotPresent m)
  | _, _ => m
  end.

(** Modelled from the spec: the Rust ModelStore is missing from the
    sources.  Section 4.4, [evict(model_id)]: refused ([false]) for the
    loaded model; a cached model is deleted and is NotPresent again. *)
Definition evict (id : string) (m : Manager) : bool * Manager :=
  match status m id with
  | Some Loaded => (false, m)
  | Some Present | Some (Failed _) => (true, set_status id NotPresent m)
  | _ => (true, m)
  end.

(** What can happen to the manager. *)
Inductive Event : Type :=
| Select (id : string) (load_ok : bool)
| BeginRequest
| CompleteRequest (load_ok : bool)
| IdleExpire
| Download (id : string) (total : N)
| DownloadFinish (id : string) (verified : bool)
| CancelDownload (id : string)
| Evict (id : string).

Definition step (e : Event) (m : Manager) : Manager :=
  match e with
  | Select id load_ok => snd (select id load_ok m)
  | BeginRequest => snd (begin_request m)
  | CompleteRequest load_ok => complete_request load_ok m
  | IdleExpire => idle_expire m
  | Download id total => download id total m
  | DownloadFinish id verified => download_finish id verified m
  | CancelDownload id => cancel_download id m
  | Evict id => snd (evict id m)
  end.

Definition run (events : list Event) (m : Manager) : Manager :=
  foldl (fun acc e => step e acc) m events.

(** At start-up nothing is loaded, lent, queued or downloading, and each
    catalogue entry is cached or not. *)
Definition initial (m : Manager) : Prop :=
  engine m = None /\ in_flight m = false /\ queued_swap m = None
  /\ tasks m = ∅
  /\ forall id s, status m id = Some s -> s = NotPresent \/ s = Present.

Inductive reachable : Manager -> Prop :=
| reachable_initial m : initial m -> reachable m
| reachable_step e m : reachable m -> reachable (step e m).

Definition at_most_one_loaded (m : Manager) : Prop :=
  forall i j, status m i = Some Loaded -> status m j = Some Loaded -> i = j.

(** The invariant behind the claim: an entry is Loaded only if it is the
    one the engine holds. *)
Definition engine_owns_loaded (m : Manager) : Prop :=
  forall id, status m id = Some Loaded -> engine m = Some id.

Definition none_loaded (m : Manager) : Prop :=
  forall id, status m id <> Some Loaded.

(** A catalogue with one cached model and one that was never
    downloaded, for examples. *)
Definition one_absent : Manager :=
  {| entries := {[ "small" := Present; "large" := NotPresent ]};
     tasks := ∅; engine := None; in_flight := false; queued_swap := None |}.

(** Select one model, lend it to a request, select the other meanwhile,
    complete the request. *)
Definition swap_during_request : list Event :=
  [ Select "small" true; BeginRequest; Select "turbo" true;
    CompleteRequest true ].

(** A catalogue of two cached models, for examples. *)
Definition two_cached : Manager :=
  {| entries := {[ "small" := Present; "turbo" := Present ]};
     tasks := ∅; engine := None; in_flight := false; queued_swap := None |}.

End Models.

(* ===================================================================== *)
(** * TranscriptionManager                                                 *)
(* ===================================================================== *)

Module Transcription.

(** The closed set of providers; each has a lane of its own. *)
Inductive Provider : Type :=
| LocalEngine
| RemoteProvider (kind : string).

#[export] Instance Provider_eq_dec : EqDecision Provider.
Proof. solve_decision. Defined.

(** A request waiting in a lane: the handle [submit] returned for it, the
    text once its inference has finished, and whether it was cancelled
    after it had started (its result is then thrown away). *)
Record Queued : Type := {
  handle : nat;
  computed : option string;
  discarded : bool
}.

(** A lane: the requests not yet released, oldest first; the results
    released so far, in the order of their release; and the handles ever
    submitted to the lane, in the order of submission. *)
Record Lane : Type := {
  queue : list Queued;
  released : list (nat * string);
  submitted : list nat
}.

Record Manager : Type := {
  lanes : Provider -> Lane;
  next_handle : nat;
  model_loaded : bool;
  credential : string -> bool
}.

Definition empty_lane : Lane := {| queue := []; released := []; submitted := [] |}.

Definition set_lane (p : Provider) (l : Lane) (m : Manager) : Manager :=
  {| lanes := <[p := l]> (lanes m); next_handle := next_handle m;
     model_loaded := model_loaded m; credential := credential m |}.

(** Modelled from the spec: the Rust TranscriptionManager is missing from
    the sources.  Section 4.6, [submit]: ModelNotLoaded on the local lane
    without a loaded model, ProviderUnauthenticated on a remote lane
    without a credential; otherwise the request joins the end of its
    lane and a fresh handle is returned at once. *)
Definition submit (p : Provider) (m : Manager) : result nat * Manager :=
  let admitted :=
    match p with
    | LocalEngine => if model_loaded m then None else Some ModelNotLoaded
    | RemoteProvider kind =>
        if credential m kind then None else Some ProviderUnauthenticated
    end in
  match admitted with
  | Some e => (Err e, m)
  | None =>
      let h := next_handle m in
      let l := lanes m p in
      let l' := {| queue := queue l ++ [{| handle := h; computed := None;
                                            discarded := false |}];
                   released := released l;
                   submitted := submitted l ++ [h] |} in
      (Ok h,
       {| lanes := <[p := l']> (lanes m); next_handle := S h;
          model_loaded := model_loaded m; credential := credential m |})
  end.

(** The inference of request [h] finishes with [text]. *)
Definition mark_computed (h : nat) (text : string) (q : Queued) : Queued :=
  if (handle q =? h)%nat then
    match computed q with
    | None => {| handle := handle q; computed := Some text;
                 discarded := discarded q |}
    | Some _ => q
    end
  else q.

(** Modelled from the spec: the Rust TranscriptionManager is missing from
    the sources.  Section 5: a computation may finish at any moment, also
    that of a later request before an earlier one's; finishing only
    records the text. *)
Definition finish (p : Provider) (h : nat) (text : string) (m : Manager) : Manager :=
  let l := lanes m p in
  set_lane p {| queue := map (mark_computed h text) (queue l);
                released := released l; submitted := submitted l |} m.

(** Modelled from the spec: the Rust TranscriptionManager is missing from
    the sources.  Section 5: results are released in submission order
    per lane, so only the oldest request of a lane can be released, and
    only once it is computed; a discarded one leaves without a result. *)
Definition release (p : Provider) (m : Manager) : Manager :=
  let l := lanes m p in
  match queue l with
  | {| handle := h; computed := Some text; discarded := d |} :: rest =>
      set_lane p {| queue := rest;
                    released := if d then released l else released l ++ [(h, text)];
                    submitted := submitted l |} m
  | _ => m
  end.

(** Modelled from the spec: the Rust TranscriptionManager is missing from
    the sources.  Section 4.6, cancellation: a pending request leaves the
    queue; the one at the head, which may be mid-inference, completes and
    is then discarded. *)
Definition cancel (p : Provider) (h : nat) (m : Manager) : Manager :=
  let l := lanes m p in
  match queue l with
  | [] => m
  | first :: rest =>
      let first' :=
        if (handle first =? h)%nat then
          {| handle := handle first; computed := computed first; discarded := true |}
        else first in
      set_lane p {| queue := first' :: filter (fun q => handle q ≠ h) rest;
                    released := released l; submitted := submitted l |} m
  end.

Inductive Event : Type :=
| Submit (p : Provider)
| Finish (p : Provider) (h : nat) (text : string)
| Release (p : Provider)
| Cancel (p : Provider) (h : nat)
| ModelLoaded (b : bool).

Definition step (e : Event) (m : Manager) : Manager :=
  match e with
  | Submit p => snd (submit p m)
  | Finish p h text => finish p h text m
  | Release p => release p m
  | Cancel p h => cancel p h m
  | ModelLoaded b =>
      {| lanes := lanes m; next_handle := next_handle m;
         model_loaded := b; credential := credential m |}
  end.

Definition run (events : list Event) (m : Manager) : Manager :=
  foldl (fun acc e => step e acc) m events.

Definition initial (m : Manager) : Prop :=
  next_handle m = 0%nat /\ forall p, lanes m p = empty_lane.

Inductive reachable : Manager -> Prop :=
| reachable_fresh m : initial m -> reachable m
| reachable_after e m : reachable m -> reachable (step e m).

(** [a] occurs before [b] in [l]. *)
Definition before {A} (a b : A) (l : list A) : Prop :=
  exists i j, l !! i = Some a /\ l !! j = Some b /\ (i < j)%nat.

(** The handles whose results a lane has released, in release order. *)
Definition released_handles (m : Manager) (p : Provider) : list nat :=
  map fst (released (lanes m p)).

(** The handles a lane has released or still holds, oldest first. *)
Definition pending_handles (l : Lane) : list nat :=
  map fst (released l) ++ map handle (queue l).

(** The invariant behind the claim: what a lane has released and what it
    still holds is, in this order, a subsequence of what was submitted to
    it, and submissions carry increasing handles below the next one. *)
Definition lane_ok (next : nat) (l : Lane) : Prop :=
  pending_handles l `sublist_of` submitted l
  /\ StronglySorted lt (submitted l)
  /\ Forall (fun h => h < next) (submitted l).

Definition lanes_ordered (m : Manager) : Prop :=
  forall p, lane_ok (next_handle m) (lanes m p).

Definition fresh : Manager :=
  {| lanes := fun _ => empty_lane; next_handle := 0; model_loaded := true;
     credential := fun _ => true |}.

(** Two requests on the local lane; the second one's inference finishes
    first. *)
Definition later_finishes_first : list Event :=
  [ Submit LocalEngine; Submit LocalEngine;
    Finish LocalEngine 1 "second"; Release LocalEngine;
    Finish LocalEngine 0 "first"; Release LocalEngine; Release LocalEngine ].

End Transcription.

(* ===================================================================== *)
(** * JavaScript operators on values                                       *)
(* ===================================================================== *)

(** Truthiness: [undefined], [null], [false], [0] and the empty string
    are falsy. *)
Definition truthy (v : JsValue) : bool :=
  match v with
  | JUndefined | JNull => false
  | JBool b => b
  | JNum q => negb (Qeq_bool q 0)
  | JStr s => negb (String.eqb s "")
  | JArr _ | JObj _ => true
  end.

(** [a || b]. *)
Definition js_or (a b : JsValue) : JsValue := if truthy a then a else b.

(** [v === s] for a string literal [s]. *)
Definition strict_eq_string (v : JsValue) (s : string) : bool :=
  match v with
  | JStr s' => String.eqb s' s
  | _ => false
  end.

(** An object without the property [k]. *)
Fixpoint js_remove (k : string) (props : list (string * JsValue))
  : list (string * JsValue) :=
  match props with
  | [] => []
  | (k', v) :: rest =>
      if String.eqb k k' then js_remove k rest else (k', v) :: js_remove k rest
  end.

(** [{ ...o, [k]: v }]. *)
Definition js_set (k : string) (v : JsValue) (props : list (string * JsValue))
  : list (string * JsValue) :=
  (k, v) :: js_remove k props.

(* ===================================================================== *)
(** * Settings.tsx: what the page renders                                  *)
(* ===================================================================== *)

Module SettingsPage.
Import SettingsView.

(** A [SettingsGroup]: its title, if any, and the components in it. *)
Record Group : Type := {
  title : option string;
  children : list string
}.

Definition general_group : Group :=
  {| title := None;
     children := ["HandyShortcut"; "MicrophoneSelector"; "LanguageSelector"] |}.

Definition advanced_group : Group :=
  {| title := Some "Advanced";
     children := ["PushToTalk"; "AudioFeedback"; "OutputDeviceSelector";
                  "ShowOverlay"; "TranslateToEnglish"; "CustomWords";
                  "AlwaysOnMicrophone"] |}.

Definition api_group : Group :=
  {| title := Some "API Settings";
     children := ["MistralApiSettings"; "DeepgramApiSettings";
                  "AssemblyAIApiSettings"] |}.

Definition debug_group : Group :=
  {| title := Some "Debug";
     children := ["WordCorrectionThreshold"; "AppDataDirectory"] |}.

(** The JSX of [Settings]: three groups, then
    [settings?.debug_mode && <SettingsGroup title="Debug">]. *)
Definition render {Store} `{UseSettings Store} (settings : Store) : list Group :=
  [general_group; advanced_group; api_group]
  ++ match debug_mode settings with
     | Some true => [debug_group]
     | _ => []
     end.

(** The titles of the groups on the page, top to bottom. *)
Definition titles {Store} `{UseSettings Store} (settings : Store)
  : list (option string) :=
  map title (render settings).

(** Whether a component is on the page. *)
Definition renders {Store} `{UseSettings Store}
    (settings : Store) (component : string) : Prop :=
  exists g, g ∈ render settings /\ component ∈ children g.

End SettingsPage.

(* ===================================================================== *)
(** * GladiaApiSettings.tsx: loading, cancelling and the panel             *)
(* ===================================================================== *)

Module GladiaPanel.
Import Gladia.

(** What [loadApiKeyStatus] does besides setting state: the two backend
    commands it may call (neither takes arguments) and the console. *)
Inductive Call : Type :=
| Command (name : string)
| LogError (message : string).

(** A handler over a state [S], logging calls [E]; it completes or
    throws. *)
Definition Handler (S E A : Type) : Type :=
  S * list E -> Outcome A * (S * list E).

#[export] Instance Handler_ret {S E} : MRet (Handler S E) :=
  fun A a w => (Returned a, w).

#[export] Instance Handler_bind {S E} : MBind (Handler S E) :=
  fun A B k m w =>
    match m w with
    | (Returned a, w') => k a w'
    | (Thrown, w') => (Thrown, w')
    end.

(** [try { body } catch (error) { handler }]. *)
Definition try_catch {S E} (body handler : Handler S E unit) : Handler S E unit :=
  fun w =>
    match body w with
    | (Returned tt, w') => (Returned tt, w')
    | (Thrown, w') => handler w'
    end.

Definition update {S E} (f : S -> S) : Handler S E unit :=
  fun w => (Returned tt, (f (fst w), snd w)).

Definition call {S E} (e : E) : Handler S E unit :=
  fun w => (Returned tt, (fst w, snd w ++ [e])).

(** [await invoke<A>(name)]: the command is called; the backend's
    [reply] is what the promise settles to. *)
Definition invoke0 {S A} (reply : Outcome A) (name : string) : Handler S Call A :=
  fun w => (reply, (fst w, snd w ++ [Command name])).

Definition with_apiKey (v : string) (s : State) : State :=
  {| apiKey := v; hasApiKey := hasApiKey s; showApiKey := showApiKey s;
     loading := loading s |}.
Definition with_hasApiKey (v : bool) (s : State) : State :=
  {| apiKey := apiKey s; hasApiKey := v; showApiKey := showApiKey s;
     loading := loading s |}.
Definition with_showApiKey (v : bool) (s : State) : State :=
  {| apiKey := apiKey s; hasApiKey := hasApiKey s; showApiKey := v;
     loading := loading s |}.

(** [key || ""] for [key : string | null]. *)
Definition or_empty (key : option string) : string :=
  match key with
  | Some k => if String.eqb k "" then "" else k
  | None => ""
  end.

(** [loadApiKeyStatus].  [show] is the [showApiKey] of the render whose
    closure is called; [has_reply] and [get_reply] are what
    [has_gladia_api_key] and [get_gladia_api_key] settle to. *)
Definition loadApiKeyStatus (show : bool) (has_reply : Outcome bool)
    (get_reply : Outcome (option string)) : Handler State Call unit :=
  try_catch
    (hasKey ← invoke0 has_reply "has_gladia_api_key";
     update (with_hasApiKey hasKey);;
     if hasKey && show then
       key ← invoke0 get_reply "get_gladia_api_key";
       update (with_apiKey (or_empty key))
     else mret tt)
    (call (LogError "Failed to load API key status:")).


(** Running a handler from a component state, with an empty log. *)
Definition settle {E} (h : Handler State E unit) (s : State) : State * list E :=
  snd (h (s, [])).

(** The commands a run called, in order. *)
Definition commands (log : list Call) : list string :=
  omap (fun c => match c with Command n => Some n | LogError _ => None end) log.

(** The component's first render: the four [useState] defaults. *)
Definition first_render : State :=
  {| apiKey := ""; hasApiKey := false; showApiKey := false; loading := false |}.


(** ** What the panel shows *)

Inductive InputType : Type := text | password.

(** The two alternatives of the JSX: the "API Key configured" line with
    its Edit and Remove buttons, or the form with its input, its Save
    button and, when a key exists, its Cancel button. *)
Inductive View : Type :=
| Configured (remove_disabled : bool)
| Form (input_type : InputType) (value : string)
       (save_disabled : bool) (save_label : string) (cancel_shown : bool).

Definition view (s : State) : View :=
  if hasApiKey s && negb (showApiKey s) then Configured (loading s)
  else
    Form (if showApiKey s then text else password)
         (apiKey s)
         (loading s || String.eqb (apiKey s) "")
         (if loading s then "Saving..." else "Save API Key")
         (hasApiKey s).

(** ** What the user can do *)






End GladiaPanel.

(* ===================================================================== *)
(** * GladiaApiSettings.tsx: the panel between awaits                      *)
(* ===================================================================== *)

Module GladiaAsync.
Import Gladia GladiaPanel.

(** A promise a handler is suspended on: the [set_gladia_api_key] call of
    a save (with the key the handler closed over) or of a removal, the
    [has_gladia_api_key] call of [loadApiKeyStatus] (with the
    [showApiKey] it closed over), or its [get_gladia_api_key] call. *)
Inductive Awaited : Type :=
| SaveCommand (k : string)
| RemoveCommand
| HasKeyQuery (show : bool)
| GetKeyQuery.

(** The component's state together with the promises not yet settled,
    oldest first. *)
Record Panel : Type := {
  component : State;
  awaiting : list Awaited
}.

Inductive UserAction : Type :=
| Edit
| Remove
| TypeText (v : string)
| Save
| Cancel.

(** A control can be used when the current render shows it and it is not
    disabled. *)
Definition available (a : UserAction) (s : State) : bool :=
  match a, view s with
  | Edit, Configured _ => true
  | Remove, Configured remove_disabled => negb remove_disabled
  | TypeText _, Form _ _ _ _ _ => true
  | Save, Form _ _ save_disabled _ _ => negb save_disabled
  | Cancel, Form _ _ _ _ cancel_shown => cancel_shown
  | _, _ => false
  end.

Definition with_loading (v : bool) (s : State) : State :=
  {| apiKey := apiKey s; hasApiKey := hasApiKey s; showApiKey := showApiKey s;
     loading := v |}.

(** What a click does at once: the handler up to its first [await]. *)
Definition click (a : UserAction) (p : Panel) : Panel :=
  let c := component p in
  match a with
  | Edit => {| component := with_showApiKey true c; awaiting := awaiting p |}
  | TypeText v => {| component := with_apiKey v c; awaiting := awaiting p |}
  | Save =>
      {| component := with_loading true c;
         awaiting := awaiting p ++ [SaveCommand (apiKey c)] |}
  | Remove =>
      {| component := with_loading true c;
         awaiting := awaiting p ++ [RemoveCommand] |}
  | Cancel =>
      {| component := with_apiKey "" (with_showApiKey false c);
         awaiting := awaiting p ++ [HasKeyQuery (showApiKey c)] |}
  end.

(** The awaited promise settles: the handler goes on, or throws. *)
Definition settled (reply : Outcome unit) : M unit := fun w => (reply, w).

(** [handleSaveApiKey] from its [await] on; [k] is the key it closed
    over. *)
Definition save_resumes (onApiKeySet : option (Outcome unit)) (k : string)
    (reply : Outcome unit) : M unit :=
  try_catch_finally
    (settled reply >>>
     setHasApiKey (0 <? String.length k)%nat >>>
     (if String.eqb k "" then setShowApiKey false else ret tt) >>>
     call_optional onApiKeySet)
    (console_error "Failed to save API key:")
    (setLoading false).

(** [handleRemoveApiKey] from its [await] on. *)
Definition remove_resumes (reply : Outcome unit) : M unit :=
  try_catch_finally
    (settled reply >>>
     setApiKey "" >>>
     setHasApiKey false >>>
     setShowApiKey false)
    (console_error "Failed to remove API key:")
    (setLoading false).

(** [loadApiKeyStatus] from its first [await] on: the state, and the
    second call if it is made. *)
Definition has_key_resumes (show : bool) (reply : Outcome bool) (c : State)
  : State * list Awaited :=
  match reply with
  | Returned hasKey =>
      (with_hasApiKey hasKey c, if hasKey && show then [GetKeyQuery] else [])
  | Thrown => (c, [])
  end.

(** [loadApiKeyStatus] from its second [await] on. *)
Definition get_key_resumes (reply : Outcome (option string)) (c : State) : State :=
  match reply with
  | Returned key => with_apiKey (or_empty key) c
  | Thrown => c
  end.

(** What happens to the panel: the user uses a control, or the [i]-th
    awaited promise settles with the backend's reply. *)
Inductive Event : Type :=
| Click (a : UserAction)
| CommandSettles (i : nat) (reply : Outcome unit)
| HasKeySettles (i : nat) (reply : Outcome bool)
| GetKeySettles (i : nat) (reply : Outcome (option string)).

(** One event; [None] when the control is not available or the promise
    is not the one named. *)
Definition fire (onApiKeySet : option (Outcome unit)) (e : Event) (p : Panel)
  : option Panel :=
  let c := component p in
  match e with
  | Click a => if available a c then Some (click a p) else None
  | CommandSettles i reply =>
      match awaiting p !! i with
      | Some (SaveCommand k) =>
          Some {| component := st (run (save_resumes onApiKeySet k reply) c);
                  awaiting := delete i (awaiting p) |}
      | Some RemoveCommand =>
          Some {| component := st (run (remove_resumes reply) c);
                  awaiting := delete i (awaiting p) |}
      | _ => None
      end
  | HasKeySettles i reply =>
      match awaiting p !! i with
      | Some (HasKeyQuery show) =>
          Some {| component := fst (has_key_resumes show reply c);
                  awaiting := delete i (awaiting p)
                              ++ snd (has_key_resumes show reply c) |}
      | _ => None
      end
  | GetKeySettles i reply =>
      match awaiting p !! i with
      | Some GetKeyQuery =>
          Some {| component := get_key_resumes reply c;
                  awaiting := delete i (awaiting p) |}
      | _ => None
      end
  end.

Fixpoint fire_all (onApiKeySet : option (Outcome unit)) (events : list Event)
    (p : Panel) : option Panel :=
  match events with
  | [] => Some p
  | e :: rest =>
      match fire onApiKeySet e p with
      | Some p' => fire_all onApiKeySet rest p'
      | None => None
      end
  end.

(** The first render, with the mount effect's [loadApiKeyStatus] already
    suspended on its first call. *)
Definition mounted : Panel :=
  {| component := first_render;
     awaiting := [HasKeyQuery (showApiKey first_render)] |}.

Inductive reachable (onApiKeySet : option (Outcome unit)) : Panel -> Prop :=
| reachable_mounted : reachable onApiKeySet mounted
| reachable_fire e p p' :
    reachable onApiKeySet p -> fire onApiKeySet e p = Some p' ->
    reachable onApiKeySet p'.

(** How many [set_gladia_api_key] calls are awaited. *)
Fixpoint commands_awaited (l : list Awaited) : nat :=
  match l with
  | [] => 0
  | (SaveCommand _ | RemoveCommand) :: rest => S (commands_awaited rest)
  | _ :: rest => commands_awaited rest
  end.

(** A panel with a key configured and hidden, nothing awaited. *)
Definition configured : Panel :=
  {| component := {| apiKey := ""; hasApiKey := true; showApiKey := false;
                     loading := false |};
     awaiting := [] |}.

(** Type a key and press Save, while the mount's query is still out. *)
Definition saving : list Event := [Click (TypeText "abc"); Click Save].

(** The save goes through, the user presses Edit, and only then the
    mount's query is answered: no key. *)
Definition late_answer : list Event :=
  saving ++ [CommandSettles 1 (Returned tt); Click Edit;
             HasKeySettles 0 (Returned false)].

End GladiaAsync.

(* ===================================================================== *)
(** * OutputDeviceSelector                                                 *)
(* ===================================================================== *)

Module OutputDevice.

(** An [AudioDevice], as [AudioDeviceSchema] types it. *)
Record AudioDevice : Type := {
  index : string;
  name : string;
  is_default : bool
}.

(** What the component reads from [useSettings]:
    [getSetting("selected_output_device")],
    [isUpdating("selected_output_device")], [isLoading],
    [outputDevices]. *)
Record Hook : Type := {
  setting : JsValue;
  updating : bool;
  isLoading : bool;
  outputDevices : list AudioDevice
}.

Record Option_ : Type := { value : string; label : string }.

(** [getSetting(...) === "default" ? "Default" : getSetting(...) || "Default"]. *)
Definition selectedOutputDevice (h : Hook) : JsValue :=
  if strict_eq_string (setting h) "default" then JStr "Default"
  else js_or (setting h) (JStr "Default").

Definition outputDeviceOptions (h : Hook) : list Option_ :=
  map (fun device => {| value := name device; label := name device |})
      (outputDevices h).

Definition no_devices (h : Hook) : bool := (length (outputDevices h) =? 0)%nat.

Definition placeholder (h : Hook) : string :=
  if isLoading h || no_devices h then "Loading..." else "Select output device...".

Definition dropdown_disabled (h : Hook) : bool :=
  updating h || isLoading h || no_devices h.

Definition reset_disabled (h : Hook) : bool :=
  updating h || isLoading h.

(** The hook's values once the user has picked the device "Speakers". *)
Definition speakers_selected : Hook :=
  {| setting := JStr "Speakers"; updating := false; isLoading := false;
     outputDevices := [ {| index := "0"; name := "Speakers"; is_default := true |} ] |}.

End OutputDevice.

(* ===================================================================== *)
(** * Settings objects                                                     *)
(* ===================================================================== *)

Module SettingsObject.
Import Schema SettingsView.

(** The keys a settings object must carry: those whose type does not
    admit [undefined]. *)
Definition required_keys : list string :=
  omap (fun kt => if accepts (snd kt) JUndefined then None else Some (fst kt))
       SettingsSchema_shape.

(** The keys whose value may be [null]. *)
Definition nullable_keys : list string :=
  omap (fun kt => if accepts (snd kt) JNull then Some (fst kt) else None)
       SettingsSchema_shape.

(** The declared defaults, key by key. *)
Definition declared_default (t : ZType) : option (ZType * JsValue) :=
  match t with
  | ZDefault inner d => Some (inner, d)
  | _ => None
  end.

Definition defaults_validate : bool :=
  forallb (fun kt => match declared_default (snd kt) with
                     | Some (inner, d) => accepts inner d
                     | None => true
                     end)
          SettingsSchema_shape.

(** The settings object itself as the store: [settings?.debug_mode] reads
    the property, [updateSetting(k, v)] writes it. *)
#[export] Instance object_store : UseSettings (list (string * JsValue)) := {
  debug_mode s :=
    match js_get "debug_mode" s with
    | JBool b => Some b
    | _ => None
    end;
  updateSetting k v s := js_set k v s
}.

(** The smallest settings object: the required keys only. *)
Definition minimal_settings : list (string * JsValue) :=
  [ ("bindings", JObj []);
    ("push_to_talk", JBool false);
    ("audio_feedback", JBool false);
    ("selected_model", JStr "small");
    ("always_on_microphone", JBool false);
    ("translate_to_english", JBool false);
    ("selected_language", JStr "auto");
    ("overlay_position", JStr "bottom");
    ("debug_mode", JBool false) ].

End SettingsObject.


(* ===================================================================== *)
(** * Properties of the settings schema                                    *)
(* ===================================================================== *)

Section SchemaFacts.
Import Schema.

Lemma has_field_sound item :
  has_field item = true ->
  exists name, name ∈ field_names /\ corresponds item name = true.
Proof.
  unfold has_field. intros H.
  apply existsb_exists in H as (name & Hin & Hc).
  exists name. split; [by apply list_elem_of_In | done].
Qed.

Lemma has_field_complete item name :
  name ∈ field_names -> corresponds item name = true -> has_field item = true.
Proof.
  intros Hin Hc. unfold has_field. apply existsb_exists.
  exists name. split; [by apply list_elem_of_In | done].
Qed.

(** The keys found for each item. *)
Example fields_of_items :
  map fields_of all_items =
  [ ["selected_model"]; ["transcription_provider"];
    ["mistral_api_key"; "deepgram_api_key"; "assemblyai_api_key"; "gladia_api_key"];
    ["push_to_talk"]; []; ["model_unload_timeout"]; ["custom_words"];
    ["word_correction_threshold"]; ["translate_to_english"];
    ["selected_microphone"]; ["selected_output_device"] ].
Proof. vm_compute. reflexivity. Qed.

(** C1, as stated, fails: the settings schema has no key for the
    activation and hangover thresholds of the voice-activity gate, so not
    every listed configuration item has a field. *)
Lemma schema_lacks_gate_thresholds :
  ~ (forall item, exists name,
        name ∈ field_names /\ corresponds item name = true).
Proof.
  intros H. destruct (H ActivationHangoverThresholds) as (name & Hin & Hc).
  pose proof (has_field_complete _ _ Hin Hc) as Hf.
  vm_compute in Hf. discriminate.
Qed.

(** C1, amended: every configuration item the specification lists, other
    than the activation and hangover thresholds, has a key in the
    settings schema: the selected model, the provider and its
    credentials, push-to-talk, the idle-unload timeout, the custom words,
    the word-correction threshold, the translate flag and the selected
    input and output devices. *)
Theorem schema_covers_listed_items item :
  item <> ActivationHangoverThresholds ->
  exists name, name ∈ field_names /\ corresponds item name = true.
Proof.
  intros Hne. apply has_field_sound.
  destruct item; try (vm_compute; reflexivity).
  by destruct Hne.
Qed.

Lemma schema_covers_listed_items_witness :
  IdleUnloadTimeout <> ActivationHangoverThresholds
  /\ exists name, name ∈ field_names /\ corresponds IdleUnloadTimeout name = true.
Proof.
  split; [discriminate | apply (schema_covers_listed_items IdleUnloadTimeout); discriminate].
Defined.

Lemma accepts_enum_setting alts d s :
  accepts (ZDefault (ZOptional (ZEnum alts)) d) (JStr s) = true <-> s ∈ alts.
Proof.
  simpl. rewrite existsb_exists. split.
  - intros (x & Hin & Heq). apply String.eqb_eq in Heq. subst x.
    by apply list_elem_of_In.
  - intros Hin. exists s. split; [by apply list_elem_of_In | apply String.eqb_refl].
Qed.

(** C2: the idle-unload timeout is a setting, [model_unload_timeout],
    whose type is an enumeration; a string is an admissible value exactly
    when it is one of the alternatives, and "never" and "immediately" are
    among them. *)
Theorem unload_timeout_admits_never_and_immediately :
  exists t alts,
    field_type "model_unload_timeout" SettingsSchema_shape = Some t
    /\ enum_alternatives t = Some alts
    /\ (forall s, accepts t (JStr s) = true <-> s ∈ alts)
    /\ "never" ∈ alts /\ "immediately" ∈ alts.
Proof.
  exists (ZDefault (ZOptional ModelUnloadTimeoutSchema) (JStr "never")),
         ModelUnloadTimeout_alternatives.
  split; [reflexivity |]. split; [reflexivity |].
  split; [intros s; apply accepts_enum_setting |].
  unfold ModelUnloadTimeout_alternatives. split; set_solver.
Qed.

End SchemaFacts.

(* ===================================================================== *)
(** * Properties of the debug-mode shortcut                                *)
(* ===================================================================== *)

Section ShortcutFacts.
Import SettingsView.

Lemma lower_ascii_d c :
  lower_ascii c = "d"%char <-> c = "d"%char \/ c = "D"%char.
Proof.
  split.
  - destruct c as [[] [] [] [] [] [] [] []]; vm_compute; intros H;
      try discriminate; auto.
  - intros [-> | ->]; reflexivity.
Qed.

Lemma toLowerCase_empty s : toLowerCase s = "" -> s = "".
Proof. destruct s; [done | discriminate]. Qed.

Lemma toLowerCase_d s : toLowerCase s = "d" <-> s = "d" \/ s = "D".
Proof.
  split.
  - destruct s as [| c rest]; [discriminate |].
    simpl. intros H. injection H as Hc Hrest.
    apply toLowerCase_empty in Hrest. subst rest.
    apply lower_ascii_d in Hc as [-> | ->]; auto.
  - intros [-> | ->]; reflexivity.
Qed.

(** The shortcut is exactly: key [d] or [D], Shift, and Ctrl or Meta. *)
Lemma isDebugShortcut_spec event :
  isDebugShortcut event = true <->
  (key event = "d" \/ key event = "D")
  /\ shiftKey event = true
  /\ (ctrlKey event = true \/ metaKey event = true).
Proof.
  unfold isDebugShortcut.
  rewrite !andb_true_iff, orb_true_iff, String.eqb_eq, toLowerCase_d.
  tauto.
Qed.

(** C9: for a store whose [updateSetting] writes the flag it is given, a
    keydown with key "d" in either case, Shift, and Ctrl or Meta sets
    [debug_mode] to the negation of the value stored before the event
    (an absent value counting as false) and prevents the default; a
    second such event brings the stored value back (false where it was
    absent); any other event leaves the store as it was. *)
Theorem debug_shortcut_toggles {Store} `{UseSettings Store}
    (updateSetting_writes :
       forall (s : Store) b, debug_mode (updateSetting "debug_mode" (JBool b) s) = Some b)
    (settings : Store) (event : KeyboardEvent) :
  (isDebugShortcut event = true <->
     (key event = "d" \/ key event = "D")
     /\ shiftKey event = true
     /\ (ctrlKey event = true \/ metaKey event = true))
  /\ (isDebugShortcut event = true ->
        debug_mode (fst (handleKeyDown settings event))
          = Some (negb (match debug_mode settings with
                        | Some stored => stored
                        | None => false
                        end))
        /\ snd (handleKeyDown settings event) = true
        /\ forall event', isDebugShortcut event' = true ->
             debug_mode
               (fst (handleKeyDown (fst (handleKeyDown settings event)) event'))
             = Some (match debug_mode settings with
                     | Some stored => stored
                     | None => false
                     end))
  /\ (isDebugShortcut event = false ->
        handleKeyDown settings event = (settings, false)).
Proof.
  split; [apply isDebugShortcut_spec |]. split.
  - intros He. unfold handleKeyDown. rewrite He. cbn [fst snd].
    split; [by rewrite updateSetting_writes |]. split; [reflexivity |].
    intros event' He'. rewrite He'. cbn [fst].
    rewrite updateSetting_writes. unfold currentDebugMode at 1.
    rewrite updateSetting_writes. unfold currentDebugMode.
    by rewrite negb_involutive.
  - intros He. unfold handleKeyDown. by rewrite He.
Qed.

Lemma map_store_writes (s : gmap string JsValue) b :
  debug_mode (updateSetting "debug_mode" (JBool b) s) = Some b.
Proof. simpl. by rewrite lookup_insert_eq. Qed.

Lemma debug_shortcut_toggles_witness :
  debug_mode (fst (handleKeyDown debug_on ctrl_shift_d)) = Some false
  /\ debug_mode (fst (handleKeyDown (fst (handleKeyDown debug_on ctrl_shift_d))
                                    ctrl_shift_d)) = Some true.
Proof.
  destruct (debug_shortcut_toggles map_store_writes debug_on ctrl_shift_d)
    as (_ & Htoggle & _).
  destruct (Htoggle eq_refl) as (Hset & _ & Hback).
  split; [exact Hset | exact (Hback ctrl_shift_d eq_refl)].
Defined.

End ShortcutFacts.

(* ===================================================================== *)
(** * Properties of the Gladia API key handlers                            *)
(* ===================================================================== *)

Section GladiaFacts.
Import Gladia.

(** The state a successful save leaves: only [hasApiKey], [showApiKey]
    and [loading] are written. *)
Lemma save_resolved_state onApiKeySet s :
  st (run (handleSaveApiKey onApiKeySet (Returned tt)) s) =
  {| apiKey := apiKey s;
     hasApiKey := (0 <? String.length (apiKey s))%nat;
     showApiKey := if String.eqb (apiKey s) "" then false else showApiKey s;
     loading := false |}.
Proof.
  destruct s as [k h sh l]. unfold run, handleSaveApiKey. cbn.
  destruct (String.eqb k ""); destruct onApiKeySet as [[[]|]|]; reflexivity.
Qed.

(** A save whose command is rejected changes nothing but [loading]. *)
Lemma save_rejected_state onApiKeySet s :
  st (run (handleSaveApiKey onApiKeySet Thrown) s) =
  {| apiKey := apiKey s; hasApiKey := hasApiKey s;
     showApiKey := showApiKey s; loading := false |}.
Proof. destruct s. reflexivity. Qed.

Lemma save_invoked onApiKeySet reply s :
  invoked (run (handleSaveApiKey onApiKeySet reply) s)
  = [("set_gladia_api_key", apiKey s)].
Proof.
  destruct s as [k h sh l]. unfold run, handleSaveApiKey. cbn.
  destruct reply as [[]|]; cbn;
    destruct (String.eqb k ""); destruct onApiKeySet as [[[]|]|]; reflexivity.
Qed.

Lemma remove_resolved_state s :
  st (run (handleRemoveApiKey (Returned tt)) s) =
  {| apiKey := ""; hasApiKey := false; showApiKey := false; loading := false |}.
Proof. destruct s. reflexivity. Qed.

Lemma remove_invoked reply s :
  invoked (run (handleRemoveApiKey reply) s) = [("set_gladia_api_key", "")].
Proof. destruct s, reply as [[]|]; reflexivity. Qed.

(** C8: after a save of key [k] (the [set_gladia_api_key] command having
    gone through) [hasApiKey] is [k.length > 0].  Saving the empty string
    and removing issue the same single command, [set_gladia_api_key]
    with the empty string, and leave the same component state, in which
    [hasApiKey] and [showApiKey] are false. *)
Theorem save_sets_hasApiKey_and_empty_save_is_removal
    (onApiKeySet : option (Outcome unit)) (k : string) (has show busy : bool) :
  let s := {| apiKey := k; hasApiKey := has; showApiKey := show; loading := busy |} in
  let empty := {| apiKey := ""; hasApiKey := has; showApiKey := show; loading := busy |} in
  let saved := run (handleSaveApiKey onApiKeySet (Returned tt)) s in
  let saved_empty := run (handleSaveApiKey onApiKeySet (Returned tt)) empty in
  let removed := run (handleRemoveApiKey (Returned tt)) s in
  hasApiKey (st saved) = (0 <? String.length k)%nat
  /\ invoked saved = [("set_gladia_api_key", k)]
  /\ invoked removed = [("set_gladia_api_key", "")]
  /\ invoked saved_empty = invoked removed
  /\ st saved_empty = st removed
  /\ hasApiKey (st saved_empty) = false /\ showApiKey (st saved_empty) = false
  /\ hasApiKey (st removed) = false /\ showApiKey (st removed) = false.
Proof.
  intros s empty saved saved_empty removed.
  subst saved saved_empty removed.
  rewrite !save_resolved_state, !save_invoked, !remove_invoked, !remove_resolved_state.
  subst s empty. cbn. repeat split; reflexivity.
Qed.

(** The save handler also calls [onApiKeySet] when the prop is given; the
    remove handler never does. *)
Example save_calls_back_remove_does_not :
  let s := {| apiKey := ""; hasApiKey := true; showApiKey := true; loading := false |} in
  trace (run (handleSaveApiKey (Some (Returned tt)) (Returned tt)) s)
    = [Invoke "set_gladia_api_key" ""; OnApiKeySet]
  /\ trace (run (handleRemoveApiKey (Returned tt)) s)
    = [Invoke "set_gladia_api_key" ""].
Proof. split; reflexivity. Qed.

End GladiaFacts.

(* ===================================================================== *)
(** * Properties of the resampler                                          *)
(* ===================================================================== *)

Section ResamplerFacts.
Import Resampler.
Local Open Scope Z_scope.


Lemma length_downmix c xs :
  length (downmix c xs) = frame_count (length xs) c.
Proof. unfold downmix. by rewrite length_map, length_seq. Qed.

Lemma length_interpolate rate mono :
  length (interpolate rate mono) = converted_length rate (length mono).
Proof. unfold interpolate. by rewrite length_map, length_seq. Qed.



Lemma converted_length_same_rate n : converted_length TARGET_RATE n = n.
Proof.
  unfold converted_length, TARGET_RATE.
  rewrite Z.div_mul by lia. apply Nat2Z.id.
Qed.

(** Interpolating at the target rate gives each sample back. *)
Lemma interpolate_same_rate mono :
  Forall2 Qeq (interpolate TARGET_RATE mono) mono.
Proof.
  apply Forall2_same_length_lookup_2.
  - by rewrite length_interpolate, converted_length_same_rate.
  - intros i x y Hx Hy. unfold interpolate in Hx.
    rewrite converted_length_same_rate in Hx.
    change (map ?f ?l) with (f <$> l) in Hx.
    rewrite list_lookup_fmap in Hx.
    apply lookup_lt_Some in Hy as Hlt.
    rewrite lookup_seq_lt in Hx by exact Hlt.
    simpl in Hx. injection Hx as <-.
    unfold TARGET_RATE. rewrite Z.mod_mul, Z.div_mul by lia.
    rewrite Nat2Z.id.
    rewrite (nth_lookup_Some _ _ _ _ Hy).
    unfold Qdiv. simpl. ring.
Qed.

(** Averaging a single channel gives each sample back. *)
Lemma downmix_one_channel xs : Forall2 Qeq (downmix 1 xs) xs.
Proof.
  apply Forall2_same_length_lookup_2.
  - rewrite length_downmix. unfold frame_count. by rewrite Nat.div_1_r.
  - intros i x y Hx Hy. unfold downmix, frame_count in Hx.
    rewrite Nat.div_1_r in Hx.
    change (map ?f ?l) with (f <$> l) in Hx.
    rewrite list_lookup_fmap in Hx.
    apply lookup_lt_Some in Hy as Hlt.
    rewrite lookup_seq_lt in Hx by exact Hlt.
    simpl in Hx. injection Hx as <-.
    rewrite Nat.mul_1_r.
    rewrite (drop_S _ _ _ Hy). simpl.
    unfold average, Qsum, Qdiv. simpl.
    change (/ inject_Z (Z.of_nat 1))%Q with 1%Q. ring.
Qed.

(** So the identity pass is what averaging and interpolation would have
    computed, sample by sample. *)
Lemma identity_pass_agrees xs :
  Forall2 Qeq (interpolate TARGET_RATE (downmix 1 xs)) xs.
Proof.
  eapply Forall2_trans;
    [| apply interpolate_same_rate | apply downmix_one_channel].
  intros x y z Hxy Hyz. by rewrite Hxy.
Qed.


(** Two stereo instants at 8000 Hz become four mono instants at
    16000 Hz: the channel means 2 and 6, the value 4 between them, and the
    last value held. *)
Example resample_stereo_8k :
  match resample stereo_8k with
  | Ok r => map Qred (out_samples r) = [2%Q; 4%Q; 6%Q; 6%Q]
  | Err _ => False
  end.
Proof. vm_compute. reflexivity. Qed.

Example resample_rejects_non_finite :
  resample {| samples := [Finite 1; NonFinite]; sample_rate := 16000;
              channels := 1; sequence := 0 |} = Err InvalidAudioInput
  /\ resample {| samples := [Finite 1]; sample_rate := 16000;
                 channels := 0; sequence := 0 |} = Err InvalidAudioInput.
Proof. split; reflexivity. Qed.


End ResamplerFacts.

(* ===================================================================== *)
(** * Properties of the recording state machine                            *)
(* ===================================================================== *)

Section RecordingFacts.
Import Recording.

(** From Recording, [stop] hands the buffer over, gate segment included,
    and the session is Idle with an empty buffer. *)
Lemma stop_recording_hands_over m :
  state (session m) = Recording ->
  exists request,
    snd (stop m) = Some request
    /\ audio request = concat (buffer (session m) ++ gate_segment m)
    /\ state (session (fst (stop m))) = Idle
    /\ buffer (session (fst (stop m))) = [].
Proof.
  intros Hs. unfold stop. rewrite Hs. eexists. split; [reflexivity |].
  repeat split.
Qed.

(** C7: [stop] on a manager whose session is Idle changes nothing, the
    buffer included, and produces no request; stopping again is the
    same. *)
Theorem stop_idle_is_noop (m : Manager) :
  state (session m) = Idle ->
  stop m = (m, None)
  /\ stop (fst (stop m)) = stop m.
Proof.
  intros Hs. assert (H : stop m = (m, None)) by (unfold stop; by rewrite Hs).
  split; [exact H |]. rewrite H. simpl. exact H.
Qed.

Lemma stop_idle_is_noop_witness :
  stop at_rest = (at_rest, None)
  /\ stop (fst (stop at_rest)) = stop at_rest.
Proof. apply (stop_idle_is_noop at_rest). reflexivity. Defined.

End RecordingFacts.

(* ===================================================================== *)
(** * Properties of the model lifecycle                                    *)
(* ===================================================================== *)

Section ModelFacts.
Import Models.

Lemma status_set_status id s m i :
  status (set_status id s m) i = if decide (id = i) then Some s else status m i.
Proof.
  unfold status, set_status. simpl.
  destruct (decide (id = i)) as [-> | Hne].
  - by rewrite lookup_insert_eq.
  - by rewrite lookup_insert_ne.
Qed.

Lemma set_status_keeps_owner id s m :
  s <> Loaded -> engine_owns_loaded m -> engine_owns_loaded (set_status id s m).
Proof.
  intros Hs Hown i. rewrite status_set_status.
  destruct (decide (id = i)); [congruence | apply Hown].
Qed.

Lemma none_loaded_owns m : none_loaded m -> engine_owns_loaded m.
Proof. intros Hn i Hi. by destruct (Hn i). Qed.

Lemma unload_current_none_loaded m :
  engine_owns_loaded m -> none_loaded (unload_current m).
Proof.
  intros Hown i. unfold unload_current.
  destruct (engine m) as [active |] eqn:He.
  - change (status (set_status active Present (set_status active Unloading m)) i
            <> Some Loaded).
    rewrite !status_set_status.
    destruct (decide (active = i)) as [-> | Hne]; [done |].
    intros Hi. apply Hown in Hi. congruence.
  - intros Hi. apply Hown in Hi. congruence.
Qed.

Lemma load_owns id load_ok m :
  none_loaded m -> engine_owns_loaded (load id load_ok m).
Proof.
  intros Hn i. unfold load. destruct load_ok.
  - change (status (set_status id Loaded (set_status id Loading m)) i = Some Loaded
            -> Some id = Some i).
    rewrite !status_set_status.
    destruct (decide (id = i)) as [-> | Hne]; [done |].
    intros Hi. by destruct (Hn i).
  - change (status (set_status id (Failed "load failed") (set_status id Loading m)) i
            = Some Loaded -> None = Some i).
    rewrite !status_set_status.
    destruct (decide (id = i)); [done |].
    intros Hi. by destruct (Hn i).
Qed.

Lemma swap_owns id load_ok m :
  engine_owns_loaded m -> engine_owns_loaded (swap id load_ok m).
Proof. intros Hown. apply load_owns, unload_current_none_loaded, Hown. Qed.

Lemma select_owns id load_ok m :
  engine_owns_loaded m -> engine_owns_loaded (snd (select id load_ok m)).
Proof.
  intros Hown. unfold select.
  destruct (status m id) as [[] |]; try exact Hown.
  destruct (in_flight m); [exact Hown | by apply swap_owns].
Qed.

Lemma owner_irrelevant_fields m m' :
  entries m' = entries m -> engine m' = engine m ->
  engine_owns_loaded m -> engine_owns_loaded m'.
Proof.
  intros He Hg Hown i. unfold status. rewrite He, Hg. apply Hown.
Qed.

Lemma begin_request_owns m :
  engine_owns_loaded m -> engine_owns_loaded (snd (begin_request m)).
Proof.
  intros Hown. unfold begin_request.
  destruct (engine m); [| exact Hown].
  destruct (in_flight m); [exact Hown |].
  by apply (owner_irrelevant_fields m).
Qed.

Lemma complete_request_owns load_ok m :
  engine_owns_loaded m -> engine_owns_loaded (complete_request load_ok m).
Proof.
  intros Hown. unfold complete_request.
  assert (Hret : engine_owns_loaded (set_in_flight false m))
    by by apply (owner_irrelevant_fields m).
  destruct (queued_swap (set_in_flight false m)) as [id |]; [| exact Hret].
  apply select_owns. by apply (owner_irrelevant_fields (set_in_flight false m)).
Qed.

Lemma download_owns id total m :
  engine_owns_loaded m -> engine_owns_loaded (download id total m).
Proof.
  intros Hown. unfold download. destruct (tasks m !! id); [exact Hown |].
  destruct (status m id) as [[] |]; try exact Hown;
    (eapply owner_irrelevant_fields;
      [| | apply (set_status_keeps_owner id (Downloading 0 total) m)]; done).
Qed.

Lemma download_finish_owns id verified m :
  engine_owns_loaded m -> engine_owns_loaded (download_finish id verified m).
Proof.
  intros Hown. unfold download_finish. destruct (tasks m !! id); [| exact Hown].
  destruct (status m id) as [[] |]; try exact Hown.
  eapply owner_irrelevant_fields;
    [| | apply (set_status_keeps_owner id
                  (if verified then Present else Failed "verification failed")
                  (set_status id Verifying m))]; try done.
  - by destruct verified.
  - by apply set_status_keeps_owner.
Qed.

Lemma cancel_download_owns id m :
  engine_owns_loaded m -> engine_owns_loaded (cancel_download id m).
Proof.
  intros Hown. unfold cancel_download. destruct (tasks m !! id); [| exact Hown].
  destruct (status m id) as [[] |]; try exact Hown.
  eapply owner_irrelevant_fields;
    [| | apply (set_status_keeps_owner id NotPresent m)]; done.
Qed.

Lemma evict_owns id m :
  engine_owns_loaded m -> engine_owns_loaded (snd (evict id m)).
Proof.
  intros Hown. unfold evict.
  destruct (status m id) as [[] |]; try exact Hown;
    by apply (set_status_keeps_owner id NotPresent m).
Qed.

Lemma step_owns e m :
  engine_owns_loaded m -> engine_owns_loaded (step e m).
Proof.
  intros Hown. destruct e; simpl.
  - by apply select_owns.
  - by apply begin_request_owns.
  - by apply complete_request_owns.
  - unfold idle_expire. destruct (in_flight m); [exact Hown |].
    by apply none_loaded_owns, unload_current_none_loaded.
  - by apply download_owns.
  - by apply download_finish_owns.
  - by apply cancel_download_owns.
  - by apply evict_owns.
Qed.

Lemma reachable_owns m : reachable m -> engine_owns_loaded m.
Proof.
  induction 1 as [m (_ & _ & _ & _ & Hst) | e m _ IH].
  - intros i Hi. destruct (Hst _ _ Hi); discriminate.
  - by apply step_owns.
Qed.

Lemma reachable_run events m : reachable m -> reachable (run events m).
Proof.
  revert m. induction events as [| e events IH]; intros m Hm; [exact Hm |].
  simpl. apply IH. by constructor.
Qed.

Lemma two_cached_initial : initial two_cached.
Proof.
  repeat split. intros id s. unfold status, two_cached. cbn [entries].
  rewrite lookup_insert_Some, lookup_singleton_Some.
  intros [[_ <-] | [_ [_ <-]]]; by right.
Qed.

(** C3: in every reachable state of the model lifecycle, whatever
    selections, requests, timer expiries, downloads and evictions led to
    it, at most one entry is Loaded. *)
Theorem never_two_loaded (m : Manager) :
  reachable m -> at_most_one_loaded m.
Proof.
  intros Hr i j Hi Hj.
  apply (reachable_owns _ Hr) in Hi, Hj. congruence.
Qed.

Lemma never_two_loaded_witness :
  reachable (run swap_during_request two_cached)
  /\ at_most_one_loaded (run swap_during_request two_cached).
Proof.
  assert (Hr : reachable (run swap_during_request two_cached))
    by apply reachable_run, reachable_initial, two_cached_initial.
  split; [exact Hr | exact (never_two_loaded _ Hr)].
Defined.

(** A selection made while a request is in flight waits: the loaded
    model stays Loaded until the request completes, then the swap is
    carried out. *)
Example swap_waits_for_request :
  let during := run [Select "small" true; BeginRequest; Select "turbo" true]
                    two_cached in
  let after := run swap_during_request two_cached in
  status during "small" = Some Loaded
  /\ status during "turbo" = Some Present
  /\ queued_swap during = Some "turbo"
  /\ status after "small" = Some Present
  /\ status after "turbo" = Some Loaded
  /\ engine after = Some "turbo".
Proof. vm_compute. repeat split. Qed.

(** C5: selecting a model whose status is not Present returns the
    ModelNotLoaded error and leaves the manager as it was: no download
    task is created and no status changes. *)
Theorem select_not_present_is_error (id : string) (load_ok : bool) (m : Manager) :
  status m id <> Some Present ->
  select id load_ok m = (Err ModelNotLoaded, m)
  /\ tasks (snd (select id load_ok m)) = tasks m
  /\ status (snd (select id load_ok m)) id = status m id.
Proof.
  intros Hnp.
  assert (H : select id load_ok m = (Err ModelNotLoaded, m)).
  { unfold select. destruct (status m id) as [[] |]; try reflexivity.
    by destruct Hnp. }
  rewrite H. done.
Qed.

Lemma select_not_present_is_error_witness :
  select "large" true one_absent = (Err ModelNotLoaded, one_absent)
  /\ tasks (snd (select "large" true one_absent)) = tasks one_absent
  /\ status (snd (select "large" true one_absent)) "large"
     = status one_absent "large".
Proof.
  apply (select_not_present_is_error "large" true one_absent).
  vm_compute. discriminate.
Defined.

End ModelFacts.

(* ===================================================================== *)
(** * Properties of the transcription lanes                                *)
(* ===================================================================== *)

Section TranscriptionFacts.
Import Transcription.

Lemma sorted_lookup_lt (l : list nat) i j a b :
  StronglySorted lt l -> l !! i = Some a -> l !! j = Some b -> i < j -> a < b.
Proof.
  intros Hs. revert i j.
  induction Hs as [| x l Hs IH Hx]; intros i j Hi Hj Hij; [done |].
  destruct j as [| j]; [lia |].
  destruct i as [| i]; simpl in *.
  - injection Hi as <-. eapply Forall_lookup_1 in Hx; eauto.
  - apply (IH i j); [done | done | lia].
Qed.

Lemma sorted_sublist (l1 l2 : list nat) :
  l1 `sublist_of` l2 -> StronglySorted lt l2 -> StronglySorted lt l1.
Proof.
  induction 1 as [| x l1 l2 Hsub IH | x l1 l2 Hsub IH]; intros Hs.
  - constructor.
  - apply StronglySorted_cons in Hs as [Hx Hs].
    apply StronglySorted_cons. split; [| by apply IH].
    rewrite Forall_forall in *. intros y Hy. apply Hx.
    by eapply elem_of_sublist.
  - apply StronglySorted_cons in Hs as [_ Hs]. by apply IH.
Qed.

Lemma handles_mark_computed h text q :
  map handle (map (mark_computed h text) q) = map handle q.
Proof.
  induction q as [| x q IH]; [done |]. simpl. rewrite IH. f_equal.
  unfold mark_computed. destruct (handle x =? h)%nat; [| done].
  by destruct (computed x).
Qed.

Lemma handles_filter_sublist (P : Queued -> Prop) `{!forall q, Decision (P q)} qs :
  map handle (filter P qs) `sublist_of` map handle qs.
Proof.
  induction qs as [| q qs IH]; [constructor |].
  rewrite filter_cons. destruct (decide (P q)); simpl; by constructor.
Qed.

Lemma lane_ok_mono n n' l : n <= n' -> lane_ok n l -> lane_ok n' l.
Proof.
  intros Hle (Hsub & Hs & Hb). repeat split; [done | done |].
  eapply Forall_impl; [exact Hb |]. simpl. lia.
Qed.

(** Replacing one lane by an ordered one keeps all lanes ordered. *)
Lemma set_lane_ordered p l m :
  lane_ok (next_handle m) l -> lanes_ordered m -> lanes_ordered (set_lane p l m).
Proof.
  intros Hl Hm p'. unfold set_lane. simpl.
  destruct (decide (p = p')) as [-> | Hne].
  - by rewrite fn_lookup_insert.
  - rewrite fn_lookup_insert_ne by done. apply Hm.
Qed.

Lemma submit_ordered p m : lanes_ordered m -> lanes_ordered (snd (submit p m)).
Proof.
  intros Hm. unfold submit.
  destruct (match p with
            | LocalEngine => if model_loaded m then None else Some ModelNotLoaded
            | RemoteProvider kind =>
                if credential m kind then None else Some ProviderUnauthenticated
            end); [exact Hm |].
  intros p'. simpl.
  destruct (decide (p = p')) as [-> | Hne].
  - rewrite fn_lookup_insert.
    destruct (Hm p') as (Hsub & Hs & Hb).
    unfold lane_ok, pending_handles in *. simpl.
    rewrite map_app, app_assoc. simpl. repeat split.
    + by apply sublist_app.
    + apply StronglySorted_app. repeat split; [| done | repeat constructor].
      intros x1 x2 Hx1 Hx2. apply list_elem_of_singleton in Hx2 as ->.
      rewrite Forall_forall in Hb. by apply Hb.
    + apply Forall_app. split; [| repeat constructor].
      eapply Forall_impl; [exact Hb |]. simpl. lia.
  - rewrite fn_lookup_insert_ne by done.
    apply (lane_ok_mono (next_handle m)); [lia | apply Hm].
Qed.

Lemma finish_ordered p h text m :
  lanes_ordered m -> lanes_ordered (finish p h text m).
Proof.
  intros Hm. unfold finish. apply set_lane_ordered; [| done].
  destruct (Hm p) as (Hsub & Hs & Hb).
  unfold lane_ok, pending_handles in *. simpl.
  by rewrite handles_mark_computed.
Qed.

Lemma release_ordered p m : lanes_ordered m -> lanes_ordered (release p m).
Proof.
  intros Hm. unfold release.
  destruct (queue (lanes m p)) as [| [h [text |] d] rest] eqn:Hq; try done.
  apply set_lane_ordered; [| done].
  destruct (Hm p) as (Hsub & Hs & Hb).
  unfold lane_ok, pending_handles in *. rewrite Hq in Hsub. simpl in *.
  repeat split; [| done | done].
  destruct d.
  - etrans; [| exact Hsub]. apply sublist_app; [done | by constructor].
  - by rewrite map_app, <- app_assoc.
Qed.

Lemma cancel_ordered p h m : lanes_ordered m -> lanes_ordered (cancel p h m).
Proof.
  intros Hm. unfold cancel.
  destruct (queue (lanes m p)) as [| first rest] eqn:Hq; [done |].
  apply set_lane_ordered; [| done].
  destruct (Hm p) as (Hsub & Hs & Hb).
  unfold lane_ok, pending_handles in *. rewrite Hq in Hsub. simpl in *.
  repeat split; [| done | done].
  etrans; [| exact Hsub]. apply sublist_app; [done |].
  replace (handle (if (handle first =? h)%nat
                   then {| handle := handle first; computed := computed first;
                           discarded := true |}
                   else first)) with (handle first)
    by by destruct (handle first =? h)%nat.
  constructor. apply handles_filter_sublist.
Qed.

Lemma step_ordered e m : lanes_ordered m -> lanes_ordered (step e m).
Proof.
  intros Hm. destruct e; simpl.
  - by apply submit_ordered.
  - by apply finish_ordered.
  - by apply release_ordered.
  - by apply cancel_ordered.
  - exact Hm.
Qed.

Lemma reachable_ordered m : reachable m -> lanes_ordered m.
Proof.
  induction 1 as [m [Hn Hl] | e m _ IH].
  - intros p. rewrite Hl. repeat split; constructor.
  - by apply step_ordered.
Qed.

Lemma reachable_run_lanes events m : reachable m -> reachable (run events m).
Proof.
  revert m. induction events as [| e events IH]; intros m Hm; [exact Hm |].
  simpl. apply IH. by constructor.
Qed.

(** C4: in every reachable state, for two requests A and B submitted to
    the same lane with A before B, if both results have been released
    then A's was released before B's, in whatever order the inferences
    finished. *)
Theorem results_released_in_submission_order
    (m : Manager) (p : Provider) (a b : nat) :
  reachable m ->
  before a b (submitted (lanes m p)) ->
  a ∈ released_handles m p ->
  b ∈ released_handles m p ->
  before a b (released_handles m p).
Proof.
  intros Hr (i & j & Hi & Hj & Hij) Ha Hb.
  destruct (reachable_ordered _ Hr p) as (Hsub & Hs & _).
  pose proof (sorted_lookup_lt _ _ _ _ _ Hs Hi Hj Hij) as Hab.
  assert (Hrel : StronglySorted lt (released_handles m p)).
  { apply (sorted_sublist _ _ Hsub) in Hs.
    unfold pending_handles in Hs. by apply StronglySorted_app_1_l in Hs. }
  apply list_elem_of_lookup in Ha as [i' Hi'].
  apply list_elem_of_lookup in Hb as [j' Hj'].
  exists i', j'. split; [done |]. split; [done |].
  destruct (decide (i' < j')) as [| Hge]; [done |].
  destruct (decide (i' = j')) as [-> | Hne].
  - rewrite Hi' in Hj'. injection Hj' as ->. lia.
  - pose proof (sorted_lookup_lt _ j' i' b a Hrel Hj' Hi' ltac:(lia)). lia.
Qed.

Lemma results_released_in_submission_order_witness :
  before 0 1 (released_handles (run later_finishes_first fresh) LocalEngine).
Proof.
  apply (results_released_in_submission_order
           (run later_finishes_first fresh) LocalEngine 0 1).
  - apply reachable_run_lanes, reachable_fresh. split; reflexivity.
  - exists 0, 1. vm_compute. repeat split. lia.
  - vm_compute. apply list_elem_of_here.
  - vm_compute. apply list_elem_of_further, list_elem_of_here.
Defined.

(** The second request's inference finishes first and its release is
    tried at once; its result still comes out after the first one's. *)
Example later_finishes_first_released :
  released (lanes (run later_finishes_first fresh) LocalEngine)
  = [(0, "first"); (1, "second")].
Proof. reflexivity. Qed.

(** Until the first request's inference finishes nothing is released. *)
Example release_waits_for_the_oldest :
  released (lanes (run (take 4 later_finishes_first) fresh) LocalEngine) = [].
Proof. reflexivity. Qed.

End TranscriptionFacts.

(* ===================================================================== *)
(** * More on the Gladia panel                                             *)
(* ===================================================================== *)

Section GladiaPanelFacts.
Import Gladia GladiaPanel.

(** X1: neither handler lets an exception out, and each ends with
    [loading] false: whether the command resolves or is rejected, and
    whether the [onApiKeySet] callback is absent, returns or throws. *)
Theorem handlers_settle
    (onApiKeySet : option (Outcome unit)) (reply : Outcome unit) (w : World) :
  fst (handleSaveApiKey onApiKeySet reply w) = Returned tt
  /\ loading (st (snd (handleSaveApiKey onApiKeySet reply w))) = false
  /\ fst (handleRemoveApiKey reply w) = Returned tt
  /\ loading (st (snd (handleRemoveApiKey reply w))) = false.
Proof.
  destruct w as [[k h sh l] t]. unfold handleSaveApiKey, handleRemoveApiKey. cbn.
  destruct reply as [[] |]; cbn;
    destruct (String.eqb k ""); destruct onApiKeySet as [[[] |] |];
    repeat split.
Qed.

(** X2: when the backend rejects the command, a save or a removal leaves
    the key field, [hasApiKey] and [showApiKey] as they were, logs one
    error and does not call [onApiKeySet]. *)
Theorem rejected_command_changes_nothing
    (onApiKeySet : option (Outcome unit)) (s : State) :
  let unchanged := {| apiKey := apiKey s; hasApiKey := hasApiKey s;
                      showApiKey := showApiKey s; loading := false |} in
  run (handleSaveApiKey onApiKeySet Thrown) s
    = {| st := unchanged;
         trace := [Invoke "set_gladia_api_key" (apiKey s);
                   ConsoleError "Failed to save API key:"] |}
  /\ run (handleRemoveApiKey Thrown) s
    = {| st := unchanged;
         trace := [Invoke "set_gladia_api_key" "";
                   ConsoleError "Failed to remove API key:"] |}.
Proof. destruct s. split; reflexivity. Qed.

(** X3: when the command resolves but the [onApiKeySet] callback throws,
    the component state is that of a successful save, and the failure is
    logged as a failure to save. *)
Theorem throwing_callback_still_saves (s : State) :
  st (run (handleSaveApiKey (Some Thrown) (Returned tt)) s)
    = st (run (handleSaveApiKey None (Returned tt)) s)
  /\ trace (run (handleSaveApiKey (Some Thrown) (Returned tt)) s)
    = [Invoke "set_gladia_api_key" (apiKey s); OnApiKeySet;
       ConsoleError "Failed to save API key:"].
Proof.
  destruct s as [k h sh l]. unfold run, handleSaveApiKey. cbn.
  destruct (String.eqb k ""); split; reflexivity.
Qed.

(** A save never rewrites the key field and never turns [showApiKey]
    on. *)
Lemma save_keeps_field onApiKeySet reply s :
  apiKey (st (run (handleSaveApiKey onApiKeySet reply) s)) = apiKey s
  /\ (showApiKey (st (run (handleSaveApiKey onApiKeySet reply) s)) = true ->
      showApiKey s = true).
Proof.
  destruct s as [k h sh l]. unfold run, handleSaveApiKey. cbn.
  destruct reply as [[] |]; cbn;
    destruct (String.eqb k ""); destruct onApiKeySet as [[[] |] |]; cbn;
    split; done.
Qed.

(** What [loadApiKeyStatus] does, case by case. *)
Lemma load_cases show has_reply get_reply s :
  settle (loadApiKeyStatus show has_reply get_reply) s =
  match has_reply with
  | Thrown =>
      (s, [Command "has_gladia_api_key";
           LogError "Failed to load API key status:"])
  | Returned hasKey =>
      if hasKey && show then
        match get_reply with
        | Thrown =>
            (with_hasApiKey hasKey s,
             [Command "has_gladia_api_key"; Command "get_gladia_api_key";
              LogError "Failed to load API key status:"])
        | Returned key =>
            (with_apiKey (or_empty key) (with_hasApiKey hasKey s),
             [Command "has_gladia_api_key"; Command "get_gladia_api_key"])
        end
      else (with_hasApiKey hasKey s, [Command "has_gladia_api_key"])
  end.
Proof.
  destruct has_reply as [[] |], show, get_reply as [key |]; reflexivity.
Qed.

(** X4: [loadApiKeyStatus] asks the backend for the key itself only when
    the render it belongs to shows the key and the backend reports that
    one exists; otherwise [has_gladia_api_key] is its only command and
    the key field is not written. *)
Theorem key_fetched_only_when_shown
    (show : bool) (has_reply : Outcome bool)
    (get_reply : Outcome (option string)) (s : State) :
  let after := settle (loadApiKeyStatus show has_reply get_reply) s in
  ("get_gladia_api_key" ∈ commands (snd after)
     <-> show = true /\ has_reply = Returned true)
  /\ (commands (snd after) = ["has_gladia_api_key"]
      \/ commands (snd after) = ["has_gladia_api_key"; "get_gladia_api_key"])
  /\ ("get_gladia_api_key" ∉ commands (snd after) ->
      apiKey (fst after) = apiKey s).
Proof.
  cbv zeta. rewrite load_cases.
  destruct has_reply as [[] |], show, get_reply as [key |]; cbn;
    rewrite ?elem_of_cons, ?elem_of_nil;
    intuition (try discriminate; try congruence).
Qed.

(** X5: a rejected [has_gladia_api_key] leaves the state as it was; a
    rejected [get_gladia_api_key] leaves the key field as it was, with
    [hasApiKey] already set; a [null] key is stored as the empty string.
    In each case of failure one error is logged and nothing is thrown. *)
Theorem load_failures
    (show : bool) (get_reply : Outcome (option string)) (s : State)
    (w : State * list Call) :
  settle (loadApiKeyStatus show Thrown get_reply) s
    = (s, [Command "has_gladia_api_key";
           LogError "Failed to load API key status:"])
  /\ settle (loadApiKeyStatus true (Returned true) Thrown) s
    = (with_hasApiKey true s,
       [Command "has_gladia_api_key"; Command "get_gladia_api_key";
        LogError "Failed to load API key status:"])
  /\ fst (settle (loadApiKeyStatus true (Returned true) (Returned None)) s)
    = with_apiKey "" (with_hasApiKey true s)
  /\ forall has_reply,
       fst (loadApiKeyStatus show has_reply get_reply w) = Returned tt.
Proof.
  rewrite !load_cases. repeat split.
  intros has_reply. destruct w, has_reply as [[] |], show, get_reply; reflexivity.
Qed.








(** X10: a removal that goes through brings the panel back to the empty
    form: password input, Save disabled, no Cancel button. *)
Theorem removal_returns_to_empty_form (s : State) :
  view (st (run (handleRemoveApiKey (Returned tt)) s))
  = Form password "" true "Save API Key" false.
Proof. rewrite remove_resolved_state. reflexivity. Qed.

End GladiaPanelFacts.

(* ===================================================================== *)
(** * The Gladia panel between awaits                                      *)
(* ===================================================================== *)

Section GladiaAsyncFacts.
Import Gladia GladiaPanel GladiaAsync.

(** Suspending at the [await] and resuming with nothing in between is the
    handler run in one go. *)
Lemma save_resumes_agrees onApiKeySet reply s :
  st (run (save_resumes onApiKeySet (apiKey s) reply) (with_loading true s))
  = st (run (handleSaveApiKey onApiKeySet reply) s).
Proof.
  destruct s as [k h sh l]. unfold run, save_resumes, handleSaveApiKey. cbn.
  destruct reply as [[] |]; cbn;
    destruct (String.eqb k ""); destruct onApiKeySet as [[[] |] |]; reflexivity.
Qed.

Lemma remove_resumes_agrees reply s :
  st (run (remove_resumes reply) (with_loading true s))
  = st (run (handleRemoveApiKey reply) s).
Proof. destruct s, reply as [[] |]; reflexivity. Qed.

Lemma load_resumes_agrees show has_reply get_reply s :
  fst (settle (loadApiKeyStatus show has_reply get_reply) s)
  = match snd (has_key_resumes show has_reply s) with
    | [] => fst (has_key_resumes show has_reply s)
    | _ => get_key_resumes get_reply (fst (has_key_resumes show has_reply s))
    end.
Proof.
  rewrite load_cases.
  destruct has_reply as [[] |], show, get_reply; reflexivity.
Qed.

Lemma save_resumes_state onApiKeySet k reply c :
  st (run (save_resumes onApiKeySet k reply) c) =
  match reply with
  | Returned _ =>
      {| apiKey := apiKey c; hasApiKey := (0 <? String.length k)%nat;
         showApiKey := if String.eqb k "" then false else showApiKey c;
         loading := false |}
  | Thrown => with_loading false c
  end.
Proof.
  destruct c as [k' h sh l]. unfold run, save_resumes. cbn.
  destruct reply as [[] |]; cbn;
    destruct (String.eqb k ""); destruct onApiKeySet as [[[] |] |]; reflexivity.
Qed.

Lemma remove_resumes_state reply c :
  st (run (remove_resumes reply) c) =
  match reply with
  | Returned _ =>
      {| apiKey := ""; hasApiKey := false; showApiKey := false; loading := false |}
  | Thrown => with_loading false c
  end.
Proof. destruct c, reply as [[] |]; reflexivity. Qed.

Lemma available_edit c :
  available Edit c = true -> hasApiKey c = true /\ showApiKey c = false.
Proof.
  unfold available, view. destruct (hasApiKey c), (showApiKey c); cbn; auto;
    discriminate.
Qed.

Lemma available_starts_command a c :
  a = Save \/ a = Remove -> available a c = true -> loading c = false.
Proof.
  unfold available, view.
  intros [-> | ->]; destruct (hasApiKey c && negb (showApiKey c));
    try discriminate; destruct (loading c); try reflexivity;
    cbn; discriminate.
Qed.

(** X6: the key is put on show by one event only, a click on Edit, and
    Edit is on screen only while a key is configured and hidden: whatever
    is awaited and whatever the backend answers, no other click and no
    settling promise turns [showApiKey] on. *)
Theorem key_revealed_only_by_edit
    (onApiKeySet : option (Outcome unit)) (e : Event) (p p' : Panel) :
  fire onApiKeySet e p = Some p' ->
  showApiKey (component p) = false ->
  showApiKey (component p') = true ->
  e = Click Edit /\ hasApiKey (component p) = true.
Proof.
  intros Hfire Hoff Hon. destruct p as [c l]. simpl in *.
  destruct e as [a | i reply | i reply | i reply]; simpl in Hfire.
  - destruct (available a c) eqn:Hav; [| discriminate].
    injection Hfire as <-.
    destruct a; simpl in Hon; try congruence.
    split; [reflexivity | by apply available_edit in Hav as [? _]].
  - destruct (l !! i) as [[k | | show |] |]; try discriminate;
      injection Hfire as <-; simpl in Hon.
    + rewrite save_resumes_state in Hon.
      destruct reply; simpl in Hon; [| congruence].
      destruct (String.eqb k ""); congruence.
    + rewrite remove_resumes_state in Hon.
      destruct reply; simpl in Hon; congruence.
  - destruct (l !! i) as [[k | | show |] |]; try discriminate.
    injection Hfire as <-. simpl in Hon.
    destruct reply; simpl in Hon; congruence.
  - destruct (l !! i) as [[k | | show |] |]; try discriminate.
    injection Hfire as <-. simpl in Hon.
    destruct reply; simpl in Hon; congruence.
Qed.

Lemma key_revealed_only_by_edit_witness :
  Click Edit = Click Edit /\ hasApiKey (component configured) = true.
Proof.
  apply (key_revealed_only_by_edit None (Click Edit) configured
           {| component := with_showApiKey true (component configured);
              awaiting := [] |});
    reflexivity.
Defined.

Lemma commands_awaited_app l1 l2 :
  commands_awaited (l1 ++ l2) = commands_awaited l1 + commands_awaited l2.
Proof.
  induction l1 as [| [] l1 IH]; simpl; by rewrite ?IH.
Qed.

Lemma commands_awaited_delete l i x :
  l !! i = Some x ->
  commands_awaited l = commands_awaited [x] + commands_awaited (delete i l).
Proof.
  revert i. induction l as [| y l IH]; intros i Hi; [done |].
  destruct i as [| i]; simpl in Hi.
  - injection Hi as ->. destruct x; reflexivity.
  - specialize (IH _ Hi). destruct y, x; simpl in *; lia.
Qed.

Lemma fire_keeps_one_command onApiKeySet e p p' :
  fire onApiKeySet e p = Some p' ->
  commands_awaited (awaiting p) = (if loading (component p) then 1 else 0) ->
  commands_awaited (awaiting p') = (if loading (component p') then 1 else 0).
Proof.
  intros Hfire Hinv. destruct p as [c l]. simpl in *.
  destruct e as [a | i reply | i reply | i reply]; simpl in Hfire.
  - destruct (available a c) eqn:Hav; [| discriminate].
    injection Hfire as <-.
    destruct a; simpl; rewrite ?commands_awaited_app; simpl;
      try (rewrite Hinv; destruct (loading c); lia).
    + rewrite (available_starts_command Remove c) in Hinv by auto. lia.
    + rewrite (available_starts_command Save c) in Hinv by auto. lia.
  - destruct (l !! i) as [[k | | show |] |] eqn:Hi; try discriminate;
      injection Hfire as <-; simpl;
      apply commands_awaited_delete in Hi; simpl in Hi.
    + rewrite save_resumes_state.
      destruct (loading c); [| lia].
      destruct reply; simpl; lia.
    + rewrite remove_resumes_state.
      destruct (loading c); [| lia].
      destruct reply; simpl; lia.
  - destruct (l !! i) as [[k | | show |] |] eqn:Hi; try discriminate.
    injection Hfire as <-. simpl.
    apply commands_awaited_delete in Hi. simpl in Hi.
    rewrite commands_awaited_app.
    destruct reply as [hasKey |]; simpl.
    + destruct (hasKey && show); simpl; lia.
    + lia.
  - destruct (l !! i) as [[k | | show |] |] eqn:Hi; try discriminate.
    injection Hfire as <-. simpl.
    apply commands_awaited_delete in Hi. simpl in Hi.
    destruct reply; simpl; lia.
Qed.

Lemma reachable_one_command onApiKeySet p :
  reachable onApiKeySet p ->
  commands_awaited (awaiting p) = (if loading (component p) then 1 else 0).
Proof.
  induction 1 as [| e p p' _ IH Hfire]; [reflexivity |].
  by eapply fire_keeps_one_command.
Qed.

Lemma reachable_fire_all onApiKeySet events p p' :
  reachable onApiKeySet p -> fire_all onApiKeySet events p = Some p' ->
  reachable onApiKeySet p'.
Proof.
  revert p. induction events as [| e rest IH]; intros p Hp Hrun; simpl in Hrun.
  - by injection Hrun as <-.
  - destruct (fire onApiKeySet e p) as [q |] eqn:Hq; [| discriminate].
    apply (IH q); [| done]. by apply (reachable_fire _ e p).
Qed.

(** X7: in every state the panel reaches, with clicks and settling
    promises interleaved in any order, [loading] is true exactly while one
    [set_gladia_api_key] call is awaited and there is never a second one:
    Save and Remove can be used only when none is awaited. *)
Theorem one_command_in_flight
    (onApiKeySet : option (Outcome unit)) (p : Panel) :
  reachable onApiKeySet p ->
  commands_awaited (awaiting p) = (if loading (component p) then 1 else 0)
  /\ forall a, a = Save \/ a = Remove ->
       available a (component p) = true ->
       commands_awaited (awaiting p) = 0.
Proof.
  intros Hr. pose proof (reachable_one_command _ _ Hr) as Hinv.
  split; [exact Hinv |].
  intros a Ha Hav. rewrite Hinv.
  by rewrite (available_starts_command a _ Ha Hav).
Qed.

Lemma one_command_in_flight_witness :
  commands_awaited [HasKeyQuery false; SaveCommand "abc"] = 1
  /\ forall a, a = Save \/ a = Remove ->
       available a {| apiKey := "abc"; hasApiKey := false; showApiKey := false;
                      loading := true |} = true ->
       commands_awaited [HasKeyQuery false; SaveCommand "abc"] = 0.
Proof.
  apply (one_command_in_flight None
           {| component := {| apiKey := "abc"; hasApiKey := false;
                              showApiKey := false; loading := true |};
              awaiting := [HasKeyQuery false; SaveCommand "abc"] |}).
  apply (reachable_fire_all None saving mounted);
    [apply reachable_mounted | reflexivity].
Defined.

(** While the save is awaited the form is still on screen, masked, with
    Save disabled and relabelled. *)
Example panel_while_saving :
  option_map (fun p => view (component p)) (fire_all None saving mounted)
  = Some (Form password "abc" true "Saving..." false).
Proof. reflexivity. Qed.

(** A late answer can leave the key field on show with no key
    configured: the mount's query, answered only after a save and a click
    on Edit, overwrites [hasApiKey]. *)
Example late_answer_shows_unconfigured_key :
  option_map component (fire_all None late_answer mounted)
  = Some {| apiKey := "abc"; hasApiKey := false; showApiKey := true;
            loading := false |}.
Proof. reflexivity. Qed.

End GladiaAsyncFacts.

(* ===================================================================== *)
(** * The settings page and the shortcut                                   *)
(* ===================================================================== *)

Section SettingsPageFacts.
Import SettingsView SettingsPage.

Lemma debug_titled {Store} `{UseSettings Store} (settings : Store) :
  Some "Debug" ∈ titles settings <-> currentDebugMode settings = true.
Proof.
  unfold titles, render, currentDebugMode.
  destruct (debug_mode settings) as [[] |]; cbn;
    rewrite ?elem_of_cons, ?elem_of_nil;
    intuition (try discriminate; try congruence).
Qed.

(** X11: the page always shows its three regular groups, and the Debug
    group exactly when [debug_mode] is true; for a store whose
    [updateSetting] writes the flag it is given, the debug shortcut shows
    the group when it was hidden and hides it when it was shown, and any
    other key event leaves the page as it was. *)
Theorem debug_group_follows_shortcut {Store} `{UseSettings Store}
    (updateSetting_writes :
       forall (s : Store) b, debug_mode (updateSetting "debug_mode" (JBool b) s) = Some b)
    (settings : Store) (event : KeyboardEvent) :
  let after := fst (handleKeyDown settings event) in
  (exists rest, titles settings = [None; Some "Advanced"; Some "API Settings"] ++ rest)
  /\ (Some "Debug" ∈ titles settings <-> currentDebugMode settings = true)
  /\ (isDebugShortcut event = true ->
        (Some "Debug" ∈ titles after <-> Some "Debug" ∉ titles settings))
  /\ (isDebugShortcut event = false -> render after = render settings).
Proof.
  cbv zeta. split; [by eexists |]. split; [apply debug_titled |]. split.
  - intros He. rewrite !debug_titled. unfold handleKeyDown. rewrite He. simpl.
    unfold currentDebugMode at 1. rewrite updateSetting_writes.
    destruct (currentDebugMode settings); simpl; split; congruence.
  - intros He. unfold handleKeyDown. by rewrite He.
Qed.

Lemma debug_group_follows_shortcut_witness :
  Some "Debug" ∈ titles (fst (handleKeyDown (∅ : gmap string JsValue) ctrl_shift_d)).
Proof.
  destruct (debug_group_follows_shortcut map_store_writes ∅ ctrl_shift_d)
    as (_ & _ & Hflip & _).
  apply (Hflip eq_refl). intros Hin.
  apply debug_titled in Hin. discriminate.
Defined.

End SettingsPageFacts.

(* ===================================================================== *)
(** * The output device selector                                           *)
(* ===================================================================== *)

Section OutputDeviceFacts.
Import Schema OutputDevice.

(** X12: for every value the settings schema admits under
    [selected_output_device], the selector displays a non-empty string
    that is never the raw ["default"]: the stored device name when the
    setting is a name other than ["default"] and the empty string, and
    ["Default"] when the setting is missing, [null], empty or
    ["default"]. *)
Theorem selected_output_device_label (h : Hook) (t : ZType) :
  field_type "selected_output_device" SettingsSchema_shape = Some t ->
  accepts t (setting h) = true ->
  exists s, selectedOutputDevice h = JStr s
            /\ s <> "" /\ s <> "default"
            /\ (forall device, setting h = JStr device ->
                  device <> "" -> device <> "default" -> s = device)
            /\ (setting h = JUndefined \/ setting h = JNull
                \/ setting h = JStr "" \/ setting h = JStr "default" ->
                s = "Default").
Proof.
  intros Ht Hacc. vm_compute in Ht. injection Ht as <-.
  unfold selectedOutputDevice, js_or, strict_eq_string.
  destruct (setting h) as [| | b | q | s | items | props]; simpl in Hacc;
    try discriminate.
  - exists "Default". simpl. repeat split; auto; discriminate.
  - exists "Default". simpl. repeat split; auto; discriminate.
  - destruct (String.eqb s "default") eqn:Hd.
    + apply String.eqb_eq in Hd. subst s.
      exists "Default". repeat split; auto; try discriminate.
      intros device Heq _ Hne. injection Heq as <-. by destruct Hne.
    + simpl. destruct (String.eqb s "") eqn:He; simpl.
      * apply String.eqb_eq in He. subst s.
        exists "Default". repeat split; auto; try discriminate.
        intros device Heq Hne _. injection Heq as <-. by destruct Hne.
      * exists s. apply String.eqb_neq in Hd, He. repeat split; auto.
        -- intros device Heq _ _. by injection Heq.
        -- intros [Hs | [Hs | [Hs | Hs]]]; try discriminate;
             injection Hs as ->; by (destruct He || destruct Hd).
Qed.

Lemma selected_output_device_label_witness :
  selectedOutputDevice speakers_selected = JStr "Speakers".
Proof.
  destruct (selected_output_device_label speakers_selected
              (ZOptional (ZNullable ZString)) eq_refl eq_refl)
    as (s & Hs & _ & _ & Hname & _).
  rewrite Hs. f_equal. apply (Hname "Speakers"); [reflexivity | | ]; discriminate.
Defined.

(** X13: the dropdown is disabled exactly when its placeholder reads
    "Loading..." or the setting is being updated; whenever the reset
    button is disabled so is the dropdown; and the options are the
    devices' names, in order, as both value and label. *)
Theorem dropdown_disabled_when_loading (h : Hook) :
  (dropdown_disabled h = true <->
     placeholder h = "Loading..." \/ updating h = true)
  /\ (reset_disabled h = true -> dropdown_disabled h = true)
  /\ map value (outputDeviceOptions h) = map name (outputDevices h)
  /\ map label (outputDeviceOptions h) = map name (outputDevices h).
Proof.
  unfold dropdown_disabled, reset_disabled, placeholder, outputDeviceOptions.
  rewrite !map_map. simpl.
  destruct (updating h), (isLoading h), (no_devices h); simpl;
    repeat split; auto; intros [? | ?]; discriminate.
Qed.

End OutputDeviceFacts.

(* ===================================================================== *)
(** * Settings objects against the schema                                  *)
(* ===================================================================== *)

Section SettingsObjectFacts.
Import Schema SettingsView SettingsObject.

(** An object validates when each declared key's value does. *)
Lemma accepts_object shape props :
  accepts (ZObject shape) (JObj props)
  = forallb (fun kt => accepts (snd kt) (js_get (fst kt) props)) shape.
Proof.
  induction shape as [| [k t] rest IH]; [reflexivity |].
  simpl in *. by rewrite IH.
Qed.

Lemma accepts_object_iff shape props :
  accepts (ZObject shape) (JObj props) = true <->
  forall k t, (k, t) ∈ shape -> accepts t (js_get k props) = true.
Proof.
  rewrite accepts_object, forallb_forall. split.
  - intros H k t Hin. apply (H (k, t)). by apply list_elem_of_In.
  - intros H [k t] Hin. apply H. by apply list_elem_of_In.
Qed.

Lemma js_get_remove k k' props :
  js_get k' (js_remove k props)
  = if String.eqb k' k then JUndefined else js_get k' props.
Proof.
  induction props as [| [k0 v] rest IH]; simpl.
  - by destruct (String.eqb k' k).
  - destruct (String.eqb k k0) eqn:Hk0.
    + apply String.eqb_eq in Hk0. subst k0. rewrite IH.
      by destruct (String.eqb k' k).
    + simpl. rewrite IH.
      destruct (String.eqb k' k0) eqn:Hk'; [| done].
      apply String.eqb_eq in Hk'. subst k0.
      rewrite String.eqb_sym in Hk0. by rewrite Hk0.
Qed.

Lemma js_get_set k v k' props :
  js_get k' (js_set k v props)
  = if String.eqb k' k then v else js_get k' props.
Proof.
  unfold js_set. simpl. rewrite js_get_remove.
  by destruct (String.eqb k' k).
Qed.

(** The required keys, and those that admit [null]. *)
Example required_and_nullable_keys :
  required_keys =
    ["bindings"; "push_to_talk"; "audio_feedback"; "selected_model";
     "always_on_microphone"; "translate_to_english"; "selected_language";
     "overlay_position"; "debug_mode"]
  /\ nullable_keys =
    ["selected_microphone"; "selected_output_device"; "mistral_api_key";
     "deepgram_api_key"; "assemblyai_api_key"; "gladia_api_key"].
Proof. split; vm_compute; reflexivity. Qed.

(** X14: every default the settings schema declares is itself a value
    its field admits. *)
Theorem declared_defaults_are_admitted (k : string) (t inner : ZType) (d : JsValue) :
  (k, t) ∈ SettingsSchema_shape ->
  declared_default t = Some (inner, d) ->
  accepts inner d = true /\ accepts t d = true.
Proof.
  intros Hin Hd.
  assert (Hall : defaults_validate = true) by (vm_compute; reflexivity).
  unfold defaults_validate in Hall. rewrite forallb_forall in Hall.
  apply list_elem_of_In in Hin. specialize (Hall _ Hin). simpl in Hall.
  rewrite Hd in Hall. split; [exact Hall |].
  destruct t; try discriminate. simpl in Hd. injection Hd as -> ->.
  simpl. by destruct d.
Qed.

Lemma declared_defaults_are_admitted_witness :
  accepts (ZOptional ModelUnloadTimeoutSchema) (JStr "never") = true
  /\ accepts (ZDefault (ZOptional ModelUnloadTimeoutSchema) (JStr "never"))
             (JStr "never") = true.
Proof.
  apply (declared_defaults_are_admitted "model_unload_timeout"
           (ZDefault (ZOptional ModelUnloadTimeoutSchema) (JStr "never"))).
  - unfold SettingsSchema_shape. do 16 apply list_elem_of_further.
    apply list_elem_of_here.
  - reflexivity.
Defined.

Lemma js_set_keeps_valid k v props :
  accepts SettingsSchema (JObj props) = true ->
  (forall t, (k, t) ∈ SettingsSchema_shape -> accepts t v = true) ->
  accepts SettingsSchema (JObj (js_set k v props)) = true.
Proof.
  intros Hacc Hv. apply accepts_object_iff. intros k' t Hin.
  rewrite js_get_set. destruct (String.eqb k' k) eqn:Heq.
  - apply String.eqb_eq in Heq. subst k'. by apply Hv.
  - by apply (proj1 (accepts_object_iff _ _) Hacc).
Qed.

Lemma debug_mode_admits_booleans b t :
  ("debug_mode", t) ∈ SettingsSchema_shape -> accepts t (JBool b) = true.
Proof.
  intros Hin.
  assert (Hall : forallb (fun kt => if String.eqb (fst kt) "debug_mode"
                                    then accepts (snd kt) (JBool b) else true)
                         SettingsSchema_shape = true)
    by (destruct b; vm_compute; reflexivity).
  rewrite forallb_forall in Hall. apply list_elem_of_In in Hin.
  specialize (Hall _ Hin). exact Hall.
Qed.

Lemma object_store_writes (s : list (string * JsValue)) b :
  debug_mode (updateSetting "debug_mode" (JBool b) s) = Some b.
Proof. reflexivity. Qed.

(** X18: with the settings object as the store, a key event handled by
    [handleKeyDown] takes a settings object that validates to one that
    validates, whose [debug_mode] is flipped by the debug shortcut and
    kept by any other event. *)
Theorem key_events_keep_settings_valid
    (settings : list (string * JsValue)) (event : KeyboardEvent) :
  accepts SettingsSchema (JObj settings) = true ->
  accepts SettingsSchema (JObj (fst (handleKeyDown settings event))) = true
  /\ exists b, js_get "debug_mode" settings = JBool b
               /\ js_get "debug_mode" (fst (handleKeyDown settings event))
                  = JBool (if isDebugShortcut event then negb b else b).
Proof.
  intros Hacc.
  pose proof (proj1 (accepts_object_iff _ _) Hacc) as Hall.
  assert (Hin : ("debug_mode", ZBoolean) ∈ SettingsSchema_shape).
  { unfold SettingsSchema_shape. do 14 apply list_elem_of_further.
    apply list_elem_of_here. }
  pose proof (Hall _ _ Hin) as Hd. simpl in Hd.
  destruct (js_get "debug_mode" settings) as [| | b | | | |] eqn:Hget;
    try discriminate.
  unfold handleKeyDown. destruct (isDebugShortcut event); cbn [fst].
  - split.
    + apply js_set_keeps_valid; [exact Hacc |].
      intros t. apply debug_mode_admits_booleans.
    + exists b. split; [reflexivity |].
      change (js_get "debug_mode"
                (js_set "debug_mode" (JBool (negb (currentDebugMode settings)))
                        settings) = JBool (negb b)).
      rewrite js_get_set. simpl. unfold currentDebugMode. simpl.
      by rewrite Hget.
  - split; [exact Hacc |]. by exists b.
Qed.

Lemma key_events_keep_settings_valid_witness :
  accepts SettingsSchema
    (JObj (fst (handleKeyDown minimal_settings ctrl_shift_d))) = true
  /\ exists b, js_get "debug_mode" minimal_settings = JBool b
               /\ js_get "debug_mode" (fst (handleKeyDown minimal_settings ctrl_shift_d))
                  = JBool (if isDebugShortcut ctrl_shift_d then negb b else b).
Proof.
  apply (key_events_keep_settings_valid minimal_settings ctrl_shift_d).
  reflexivity.
Defined.

End SettingsObjectFacts.
